(** * Mode arbitration of the agent: src/agent/modes.js

    A shallow embedding of the mode registry ([modes]), of the execution
    wrapper ([execute]) and of [ModeController], followed by the properties
    of the tick loop, of the pause protocol and of the name-indexed
    operations.

    Conventions of the embedding.
    - The collaborators of the file (world queries, the idle predicate,
      [Date.now], [Math.random]) are read from an observation record
      [obs]: one field per call site, so nothing is assumed about how two
      calls inside one tick relate.
    - [execute] is an async function that is never awaited by its callers.
      Its synchronous prefix ([execute]) runs inside the mode's update; its
      continuation ([execute_resume]) is a separate input of the
      transition system, fired when [agent.coder.execute] settles.
    - One call of [ModeController.update] is one transition: the short
      awaits inside a tick are not interleaved with other inputs.
    - Objects are referenced by position: a mode is its index in
      [modes_list], and [modes_map] stores indices, so that a write
      through the map is seen by the loop over the list. *)

From Stdlib Require Import ZArith QArith Lia.
From stdpp Require Import gmap strings list.

Open Scope string_scope.
Open Scope list_scope.

(** ** The JavaScript runtime, as far as the file depends on it *)

Module Runtime.

(** A call either returns or throws. *)
Inductive result (A : Type) : Type :=
| Returned (a : A)
| Thrown (msg : string).
Arguments Returned {A} a.
Arguments Thrown {A} msg.

(** The two properties the controller ever writes through a name:
    [None] is an absent property (reads give [undefined]). *)
Record props : Type := Props { p_on : option bool; p_paused : option bool }.

Definition no_props : props := Props None None.

(** What [this.modes_map[k]] can evaluate to when it is not [undefined]:
    a mode, [Object.prototype] itself (the [__proto__] accessor), one of
    the built-in functions stored on [Object.prototype], or the boolean
    that an earlier call wrote to [Object.prototype.on] or
    [Object.prototype.paused]. *)
Inductive ref : Type :=
| RMode (i : nat)
| RObjectPrototype
| RFunction (f : string)
| RBoolean (v : bool).

(** The function-valued own properties of [Object.prototype]. *)
Definition object_prototype_methods : list string :=
  [ "__defineGetter__"; "__defineSetter__"; "hasOwnProperty";
    "__lookupGetter__"; "__lookupSetter__"; "isPrototypeOf";
    "propertyIsEnumerable"; "toString"; "valueOf"; "toLocaleString" ].

(** All names an object literal inherits from [Object.prototype]. *)
Definition object_prototype_names : list string :=
  "constructor" :: "__proto__" :: object_prototype_methods.

(** Lookup of [k] among the built-in properties of [Object.prototype],
    for an object whose prototype it is: [constructor] is the function
    [Object], [__proto__] reads the prototype itself, a method name reads
    that method. *)
Definition object_prototype_get (k : string) : option ref :=
  if String.eqb k "constructor" then Some (RFunction "Object")
  else if String.eqb k "__proto__" then Some RObjectPrototype
  else if bool_decide (k ∈ object_prototype_methods) then Some (RFunction k)
  else None.

(** [haystack.includes(needle)] *)
Fixpoint includes (needle haystack : string) : bool :=
  if String.prefix needle haystack then true
  else match haystack with
       | EmptyString => false
       | String _ rest => includes needle rest
       end.

Definition Qltb (a b : Q) : bool := negb (Qle_bool b a).

(** The line feed of a template literal. *)
Definition newline : string := String (Ascii.ascii_of_nat 10) EmptyString.

End Runtime.
Import Runtime.

(** ** World observations *)

Record entity : Type := Entity {
  ent_id : nat;            (* identity of the object, compared by [!==] *)
  ent_name : string;
  ent_type : string;
  ent_metadata16 : bool;   (* truthiness of [entity.metadata[16]] *)
  ent_height : Q
}.

Definition same_entity (a b : entity) : bool := Nat.eqb (ent_id a) (ent_id b).

(** [item !== other] for a non-null [item] and a possibly null [other] *)
Definition differs_from (item : entity) (other : option entity) : bool :=
  match other with
  | Some p => negb (same_entity item p)
  | None => true
  end.

Definition position : Type := Q * Q * Q.

(** What one tick reads from its collaborators, one field per call site. *)
Record obs : Type := Obs {
  (* ModeController.update *)
  ctl_idle : bool;
  (* self_defense *)
  sd_enemy : option entity;
  sd_clear : bool;
  (* hunting *)
  hu_idle : bool;
  hu_huntable : option entity;
  hu_clear : bool;
  (* item_collecting *)
  ic_idle : bool;
  ic_item : option entity;
  ic_clear : bool;
  ic_now_notice : Z;       (* Date.now() stored in noticed_at *)
  ic_now_check : Z;        (* Date.now() compared with noticed_at *)
  (* torch_placing *)
  tp_idle : bool;
  tp_near_torch : bool;
  tp_inventory : list string;
  tp_position : position;
  (* idle_staring *)
  st_idle : bool;
  st_entity : option entity;
  st_dist_lt_10 : bool;
  st_now_seen : Z;
  st_rand_seen : Q;
  st_now_check : Z;
  st_rand_staring : Q;
  st_rand_yaw : Q;
  st_rand_pitch : Q;
  st_now_next : Z;
  st_rand_next : Q
}.

(** ** Modes *)

(** The skills handed to [execute]. *)
Inductive action : Type :=
| DefendSelf (range : Z)
| ChatAndAttack (target : entity)          (* hunting: chat, then attackEntity *)
| PickupNearbyItems
| PlaceBlock (block : string) (pos : position).

(** What a tick makes visible outside the registry. *)
Inductive event : Type :=
| EvUpdate (mode_name : string)            (* mode.update(agent) is called *)
| EvQuery (mode_name : string)             (* the mode asks the world for a target *)
| EvChat (msg : string)
| EvLookAt (target : entity) (height : Q)
| EvLook (yaw_draw pitch_draw : Q)
| EvConsole (msg : string).

Inductive update_fn : Type :=
| self_defense_update
| hunting_update
| item_collecting_update
| torch_placing_update
| idle_staring_update.

(** Mode-specific fields. *)
Inductive trigger_state : Type :=
| NoState
| ItemState (wait : Z) (prev_item : option entity) (noticed_at : Z)
| StareState (staring : bool) (last_entity : option entity) (next_change : Q).

Record mode : Type := Mode {
  name : string;
  description : string;
  on : bool;
  active : bool;
  paused : option bool;    (* no mode literal has this property at start *)
  update : update_fn;
  tstate : trigger_state
}.

Definition set_on (b : bool) (m : mode) : mode :=
  Mode (name m) (description m) b (active m) (paused m) (update m) (tstate m).
Definition set_active (b : bool) (m : mode) : mode :=
  Mode (name m) (description m) (on m) b (paused m) (update m) (tstate m).
Definition set_paused (b : bool) (m : mode) : mode :=
  Mode (name m) (description m) (on m) (active m) (Some b) (update m) (tstate m).
Definition set_tstate (t : trigger_state) (m : mode) : mode :=
  Mode (name m) (description m) (on m) (active m) (paused m) (update m) t.

Definition modes : list mode :=
  [ Mode "self_defense"
         "Automatically attack nearby enemies. Interrupts other actions."
         true false None self_defense_update NoState;
    Mode "hunting"
         "Automatically hunt nearby animals when idle."
         true false None hunting_update NoState;
    Mode "item_collecting"
         "Automatically collect nearby items when idle."
         true false None item_collecting_update (ItemState 2 None (-1));
    Mode "torch_placing"
         "Automatically place torches when idle and there are no torches nearby."
         true false None torch_placing_update NoState;
    Mode "idle_staring"
         "Non-functional animation to look around at entities when idle."
         true false None idle_staring_update (StareState false None 0) ].

(** The result of running one update: the mode after it, what it did, and
    the action it handed to [execute], if any. *)
Record upd : Type := Upd {
  u_mode : mode;
  u_log : list event;
  u_dispatch : option (action * Z)     (* func and timeout of execute *)
}.

Definition finish (m : mode) (log : list event) : upd := Upd m log None.

(** [execute(mode, agent, func, timeout=-1)] up to its [await]:
    the flag is raised and [func] is handed to [agent.coder.execute]. *)
Definition execute (m : mode) (log : list event) (func : action) : upd :=
  Upd (set_active true m) log (Some (func, (-1)%Z)).

(** *** The five update functions *)

Definition run_self_defense (w : obs) (m : mode) : upd :=
  if active m then finish m []
  else
    match sd_enemy w with
    | Some enemy =>
        if sd_clear w
        then execute m [EvQuery (name m);
                        EvChat ("Fighting " +:+ ent_name enemy +:+ "!")]
                     (DefendSelf 8)
        else finish m [EvQuery (name m)]
    | None => finish m [EvQuery (name m)]
    end.

Definition run_hunting (w : obs) (m : mode) : upd :=
  if hu_idle w then
    match hu_huntable w with
    | Some huntable =>
        if hu_clear w
        then execute m [EvQuery (name m)] (ChatAndAttack huntable)
        else finish m [EvQuery (name m)]
    | None => finish m [EvQuery (name m)]
    end
  else finish m [].

(** [item && item !== this.prev_item && await world.isClearPath(...)] *)
Definition eligible_item (w : obs) (prev : option entity) : option entity :=
  match ic_item w with
  | Some item =>
      if differs_from item prev && ic_clear w then Some item else None
  | None => None
  end.

Definition run_item_collecting (w : obs) (m : mode) : upd :=
  if active m then finish m []
  else
    match tstate m with
    | ItemState wait prev noticed =>
        if ic_idle w then
          match eligible_item w prev with
          | Some item =>
              let noticed1 :=
                if (noticed =? -1)%Z then ic_now_notice w else noticed in
              if (ic_now_check w - noticed1 >? wait * 1000)%Z
              then execute (set_tstate (ItemState wait (Some item) (-1)) m)
                           [EvQuery (name m);
                            EvChat ("Picking up " +:+ ent_name item +:+ "!")]
                           PickupNearbyItems
              else finish (set_tstate (ItemState wait prev noticed1) m)
                          [EvQuery (name m)]
          | None =>
              finish (set_tstate (ItemState wait prev (-1)) m)
                     [EvQuery (name m)]
          end
        else finish m []
    | _ => finish m []       (* not a literal of the registry *)
    end.

Definition run_torch_placing (w : obs) (m : mode) : upd :=
  if active m then finish m []
  else if tp_idle w then
    if tp_near_torch w then finish m [EvQuery (name m)]
    else
      match List.filter (includes "torch") (tp_inventory w) with
      | torch :: _ =>
          execute m [EvQuery (name m)] (PlaceBlock torch (tp_position w))
      | [] => finish m [EvQuery (name m)]
      end
  else finish m [].

(** Times and random draws are exact rationals here; the rounding of
    [next_change] to a double is not modelled. *)
Definition run_idle_staring (w : obs) (m : mode) : upd :=
  match tstate m with
  | StareState staring last next =>
      if st_idle w then
        let entity_in_view :=
          match st_entity w with
          | Some e => st_dist_lt_10 w && negb (String.eqb (ent_name e) "enderman")
          | None => false
          end in
        (* a new entity came into view *)
        let '(staring1, last1, next1) :=
          match st_entity w with
          | Some e =>
              if entity_in_view && differs_from e last
              then (true, Some e,
                    (inject_Z (st_now_seen w) + st_rand_seen w * 1000 + 4000)%Q)
              else (staring, last, next)
          | None => (staring, last, next)
          end in
        let look_at :=
          match st_entity w with
          | Some e =>
              if entity_in_view && staring1 then
                let isbaby :=
                  negb (String.eqb (ent_type e) "player") && ent_metadata16 e in
                [EvLookAt e (if isbaby then (ent_height e / 2)%Q else ent_height e)]
              else []
          | None => []
          end in
        let last2 := if entity_in_view then last1 else None in
        (* time to look somewhere else *)
        let '(staring3, next3, look) :=
          if Qltb next1 (inject_Z (st_now_check w)) then
            let s := Qltb (st_rand_staring w) (3 # 10) in
            (s,
             (inject_Z (st_now_next w) + st_rand_next w * 10000 + 2000)%Q,
             if s then [] else [EvLook (st_rand_yaw w) (st_rand_pitch w)])
          else (staring1, next1, []) in
        finish (set_tstate (StareState staring3 last2 next3) (set_active true m))
               (EvQuery (name m) :: look_at ++ look)
      else finish (set_active false m) []
  | _ => finish m []         (* not a literal of the registry *)
  end.

(** [mode.update(agent)] *)
Definition run_update (w : obs) (m : mode) : upd :=
  match update m with
  | self_defense_update => run_self_defense w m
  | hunting_update => run_hunting w m
  | item_collecting_update => run_item_collecting w m
  | torch_placing_update => run_torch_placing w m
  | idle_staring_update => run_idle_staring w m
  end.

(** ** The controller *)

(** An action handed to [agent.coder.execute] whose promise has not
    settled: the continuation of [execute] still holds the mode. *)
Record dispatch : Type := Dispatch {
  d_mode : nat;
  d_func : action;
  d_timeout : Z
}.

(** Modelled from the spec: [agent.coder.execute] is not part of this
    file; it is the execution facility of the hosting agent,
    [dispatchAction(asyncAction, timeout) -> Outcome{status, message}],
    which reports success, failure and timeout alike as a completion
    result. *)
Inductive status : Type := Succeeded | Failed | TimedOut.
Record outcome : Type := Outcome { o_status : status; message : string }.

Record state : Type := State {
  modes_list : list mode;
  modes_map : gmap string nat;       (* own properties of this.modes_map *)
  object_prototype : props;          (* properties written on Object.prototype *)
  functions : gmap string props;     (* properties written on its functions *)
  in_flight : list dispatch
}.

(** [mode.paused]: the own property, else the one inherited from
    [Object.prototype]; [undefined] is falsy. *)
Definition is_paused (proto : props) (m : mode) : bool :=
  match paused m with
  | Some b => b
  | None => default false (p_paused proto)
  end.

Module ModeController.

(** [for (let mode of this.modes_list) this.modes_map[mode.name] = mode]:
    each assignment creates or overwrites an own property.  (The one name
    for which it would not, ["__proto__"], is carried by no mode of
    [modes].) *)
Fixpoint index_modes (i : nat) (ms : list mode) (mp : gmap string nat)
  : gmap string nat :=
  match ms with
  | [] => mp
  | m :: rest => index_modes (S i) rest (<[name m := i]> mp)
  end.

Definition constructor : state :=
  State modes (index_modes 0 modes ∅) no_props ∅ [].

(** [this.modes_map[mode_name]]: own property first, then the prototype,
    that is its built-in properties and the [on] and [paused] that
    [setOn("__proto__", b)] and [pause("__proto__")] have added to it. *)
Definition get (st : state) (mode_name : string) : option ref :=
  match modes_map st !! mode_name with
  | Some i => Some (RMode i)
  | None =>
      match object_prototype_get mode_name with
      | Some r => Some r
      | None =>
          if String.eqb mode_name "on"
          then RBoolean <$> p_on (object_prototype st)
          else if String.eqb mode_name "paused"
          then RBoolean <$> p_paused (object_prototype st)
          else None
      end
  end.

Definition exists_ (st : state) (mode_name : string) : bool :=
  match get st mode_name with
  | Some _ => true
  | None => false
  end.

Definition with_modes (ms : list mode) (st : state) : state :=
  State ms (modes_map st) (object_prototype st) (functions st) (in_flight st).

Definition function_props (st : state) (f : string) : props :=
  default no_props (functions st !! f).

(** [obj.on = v] and [obj.paused = v] on the object a name resolved to.
    A boolean is no object: the callers throw instead of writing. *)
Definition write (wr_mode : mode -> mode) (wr_props : props -> props)
    (r : ref) (st : state) : state :=
  match r with
  | RMode i =>
      match modes_list st !! i with
      | Some m => with_modes (<[i := wr_mode m]> (modes_list st)) st
      | None => st
      end
  | RObjectPrototype =>
      State (modes_list st) (modes_map st) (wr_props (object_prototype st))
            (functions st) (in_flight st)
  | RFunction f =>
      State (modes_list st) (modes_map st) (object_prototype st)
            (<[f := wr_props (function_props st f)]> (functions st))
            (in_flight st)
  | RBoolean _ => st
  end.

(** The module is strict code: creating a property on a primitive throws. *)
Definition cannot_create (property : string) (v : bool) : string :=
  "TypeError: Cannot create property '" +:+ property +:+ "' on boolean '"
    +:+ (if v then "true" else "false") +:+ "'".

Definition setOn (st : state) (mode_name : string) (b : bool) : result state :=
  match get st mode_name with
  | Some (RBoolean v) => Thrown (cannot_create "on" v)
  | Some r =>
      Returned (write (set_on b) (fun p => Props (Some b) (p_paused p)) r st)
  | None => Thrown "TypeError: Cannot set properties of undefined (setting 'on')"
  end.

(** The value of [.on]; [None] is [undefined]. A function inherits from
    [Object.prototype] through [Function.prototype], and a boolean through
    [Boolean.prototype]; neither of the two is ever written here. *)
Definition isOn (st : state) (mode_name : string) : result (option bool) :=
  match get st mode_name with
  | Some (RMode i) => Returned (on <$> modes_list st !! i)
  | Some RObjectPrototype => Returned (p_on (object_prototype st))
  | Some (RFunction f) =>
      Returned (match p_on (function_props st f) with
                | Some b => Some b
                | None => p_on (object_prototype st)
                end)
  | Some (RBoolean _) => Returned (p_on (object_prototype st))
  | None => Thrown "TypeError: Cannot read properties of undefined (reading 'on')"
  end.

Definition pause (st : state) (mode_name : string) : result state :=
  match get st mode_name with
  | Some (RBoolean v) => Thrown (cannot_create "paused" v)
  | Some r =>
      Returned (write (set_paused true) (fun p => Props (p_on p) (Some true)) r st)
  | None => Thrown "TypeError: Cannot set properties of undefined (setting 'paused')"
  end.

(** The first loop of [update], run when the agent is idle. *)
Fixpoint unpause_all (proto : props) (ms : list mode) : list mode * list event :=
  match ms with
  | [] => ([], [])
  | m :: rest =>
      let log := if is_paused proto m
                 then [EvConsole ("Unpausing mode " +:+ name m)] else [] in
      let '(rest', log') := unpause_all proto rest in
      (set_paused false m :: rest', log ++ log')
  end.

(** The second loop of [update]; [i] is the index of the head of [ms]. *)
Fixpoint evaluate (proto : props) (w : obs) (i : nat) (ms : list mode)
  : list mode * list event * list dispatch :=
  match ms with
  | [] => ([], [], [])
  | m :: rest =>
      if on m && negb (is_paused proto m) then
        let u := run_update w m in
        let started :=
          match u_dispatch u with
          | Some (func, timeout) => [Dispatch i func timeout]
          | None => []
          end in
        if active (u_mode u)
        then (u_mode u :: rest, EvUpdate (name m) :: u_log u, started)   (* break *)
        else
          let '(rest', log, ds) := evaluate proto w (S i) rest in
          (u_mode u :: rest', EvUpdate (name m) :: u_log u ++ log, started ++ ds)
      else
        let '(rest', log, ds) := evaluate proto w (S i) rest in
        (m :: rest', log, ds)
  end.

Definition unpause_phase (w : obs) (st : state) : state * list event :=
  if ctl_idle w then
    let '(ms, log) := unpause_all (object_prototype st) (modes_list st) in
    (with_modes ms st, log)
  else (st, []).

Definition evaluation_phase (w : obs) (st : state) : state * list event :=
  let '(ms, log, ds) := evaluate (object_prototype st) w 0 (modes_list st) in
  (State ms (modes_map st) (object_prototype st) (functions st)
         (in_flight st ++ ds),
   log).

Definition update (w : obs) (st : state) : state * list event :=
  let '(st1, log1) := unpause_phase w st in
  let '(st2, log2) := evaluation_phase w st1 in
  (st2, log1 ++ log2).

(** One line of [getStr]: [`\n- ${mode.name}(${on}): ${mode.description}`] *)
Definition listing_line (m : mode) : string :=
  newline +:+ "- " +:+ name m +:+ "(" +:+ (if on m then "ON" else "OFF")
          +:+ "): " +:+ description m.

Definition getStr (st : state) : string :=
  fold_left (fun res m => res +:+ listing_line m) (modes_list st)
            "Available Modes:".

(** [new ModeController(agent)] when the module has been in use: the
    module-level array [modes] is taken as it is, and a fresh [modes_map]
    is filled from it. *)
Definition construct (st : state) : state :=
  State (modes_list st) (index_modes 0 (modes_list st) ∅)
        (object_prototype st) (functions st) (in_flight st).

End ModeController.

(** [agent.bot.modes = new ModeController(agent)] *)
Definition initModes (st : state) : state := ModeController.construct st.

(** The continuation of [execute], run when the [k]-th pending call of
    [agent.coder.execute] settles with [code_return]: the flag is lowered
    and the outcome is logged. *)
Definition execute_resume (k : nat) (code_return : outcome) (st : state)
  : state * list event :=
  match in_flight st !! k with
  | Some d =>
      match modes_list st !! d_mode d with
      | Some m =>
          (State (<[d_mode d := set_active false m]> (modes_list st))
                 (modes_map st) (object_prototype st) (functions st)
                 (delete k (in_flight st)),
           [EvConsole ("Mode " +:+ name m +:+ " finished executing, code_return: "
                       +:+ message code_return)])
      | None => (st, [])
      end
  | None => (st, [])
  end.

(** ** The agent as a transition system *)

Inductive input : Type :=
| Tick (w : obs)
| Settle (k : nat) (code_return : outcome)
| SetOn (mode_name : string) (b : bool)
| IsOn (mode_name : string)
| Pause (mode_name : string)
| Exists (mode_name : string).

(** The state after a call: a call that throws has written nothing. *)
Definition after {A} (st : state) (r : result A) (f : A -> state) : state :=
  match r with
  | Returned a => f a
  | Thrown _ => st
  end.

Definition step (st : state) (i : input) : state * list event :=
  match i with
  | Tick w => ModeController.update w st
  | Settle k o => execute_resume k o st
  | SetOn n b => (after st (ModeController.setOn st n b) id, [])
  | IsOn n => (st, [])
  | Pause n => (after st (ModeController.pause st n) id, [])
  | Exists n => (st, [])
  end.

Fixpoint run (st : state) (ins : list input) : state * list event :=
  match ins with
  | [] => (st, [])
  | i :: rest =>
      let '(st1, log1) := step st i in
      let '(st2, log2) := run st1 rest in
      (st2, log1 ++ log2)
  end.

Definition reachable (st : state) : Prop :=
  exists ins, fst (run ModeController.constructor ins) = st.

Definition mode_names : list string :=
  ["self_defense"; "hunting"; "item_collecting"; "torch_placing"; "idle_staring"].

Definition active_count (st : state) : nat :=
  length (List.filter active (modes_list st)).

(** ** Vocabulary of the properties *)

(** The wait of the dwell timer and the kind of mode-specific state. *)
Definition shape (t : trigger_state) : option (option Z) :=
  match t with
  | NoState => None
  | ItemState wait _ _ => Some (Some wait)
  | StareState _ _ _ => Some None
  end.

(** The part of a mode literal that no code path assigns. *)
Definition literal (m : mode) : string * string * update_fn * option (option Z) :=
  (name m, description m, update m, shape (tstate m)).

(** The log of an update names no other mode and records no call. *)
Definition own_event (n : string) (e : event) : Prop :=
  match e with
  | EvUpdate _ => False
  | EvQuery n' => n' = n
  | _ => True
  end.

Definition enabled (proto : props) (m : mode) : bool :=
  on m && negb (is_paused proto m).

(** The names of the modes whose update was called, in call order. *)
Fixpoint updates_of (log : list event) : list string :=
  match log with
  | [] => []
  | EvUpdate n :: rest => n :: updates_of rest
  | _ :: rest => updates_of rest
  end.

(** How many flags went from lowered to raised between two registries. *)
Definition newly_active (before after : list mode) : nat :=
  length (List.filter (fun p : bool * bool => negb p.1 && p.2)
                      (combine (active <$> before) (active <$> after))).

(** The registry still consists of the five literals of [modes], in the
    same order and under the same names. *)
Definition registry_wf (st : state) : Prop :=
  literal <$> modes_list st = literal <$> modes /\
  modes_map st = modes_map ModeController.constructor.

(** ** Sample worlds *)

Definition zombie : entity := Entity 1 "zombie" "mob" false 2.
Definition cow : entity := Entity 2 "cow" "mob" false (7 # 5).
Definition apple : entity := Entity 3 "item" "object" false (1 # 4).
Definition bone : entity := Entity 4 "item" "object" false (1 # 4).

(** An idle agent standing next to a torch, at time [now], with the given
    nearest hostile, huntable and item entities, all of them reachable. *)
Definition observe (enemy huntable item : option entity) (now : Z) : obs :=
  Obs true enemy true
      true huntable true
      true item true now now
      true true [] (0, 0, 0)%Q
      true None false now 0 now 0 0 0 now 0.

Definition quiet : obs := observe None None None 0.

(** An agent that is not idle, with nothing around. *)
Definition busy : obs :=
  Obs false None false
      false None false
      false None false 0 0
      false false [] (0, 0, 0)%Q
      false None false 0 0 0 0 0 0 0 0.

(** The second loop examined the first [k] modes of [ms] and stopped:
    [ms'] is the registry and [log] the trace it leaves. *)
Definition examined (proto : props) (w : obs) (k : nat)
    (ms ms' : list mode) (log : list event) : Prop :=
  k <= length ms /\
  (* modes beyond the point where the loop stopped are untouched *)
  drop k ms' = drop k ms /\
  (* an examined mode had its update called exactly when it is enabled *)
  take k ms' =
    (fun m => if enabled proto m then u_mode (run_update w m) else m) <$> take k ms /\
  (* the calls happen in registry order *)
  updates_of log = name <$> List.filter (enabled proto) (take k ms) /\
  (* a mode that is active after its update is the last one examined *)
  (forall j m, j < k -> ms !! j = Some m -> enabled proto m = true ->
               active (u_mode (run_update w m)) = true -> S j = k) /\
  (* and the loop stops for no other reason *)
  (k < length ms ->
   exists j m, S j = k /\ ms !! j = Some m /\ enabled proto m = true /\
               active (u_mode (run_update w m)) = true).

(** Successive updates of one mode, with what each handed to [execute]. *)
Fixpoint updates_in_a_row (ws : list obs) (m : mode) : mode * list (action * Z) :=
  match ws with
  | [] => (m, [])
  | w :: rest =>
      let u := run_update w m in
      let '(m', ds) := updates_in_a_row rest (u_mode u) in
      (m', option_list (u_dispatch u) ++ ds)
  end.

(** A tick at which the dwell timer started at [T] has not run out while
    some item keeps being eligible. *)
Definition dwelling (prev : option entity) (T : Z) (w : obs) : Prop :=
  ic_idle w = true /\ is_Some (eligible_item w prev) /\ (ic_now_check w <= T + 2000)%Z.

(** The first loop of a tick, seen from one mode. *)
Definition unpaused_by (w : obs) (m : mode) : mode :=
  if ctl_idle w then set_paused false m else m.

(** Everything one input can do to one mode of the registry. *)
Inductive changed_by : input -> mode -> mode -> Prop :=
| ch_none i m : changed_by i m m
| ch_unpause w m : changed_by (Tick w) m (unpaused_by w m)
| ch_update w m : changed_by (Tick w) m (u_mode (run_update w (unpaused_by w m)))
| ch_settle k o m : changed_by (Settle k o) m (set_active false m)
| ch_set_on n b m : changed_by (SetOn n b) m (set_on b m)
| ch_pause n m : changed_by (Pause n) m (set_paused true m).

(** Pending actions of the mode at index [i]. *)
Definition pending (i : nat) (st : state) : nat :=
  length (List.filter (fun d => Nat.eqb (d_mode d) i) (in_flight st)).

(** The updates that return at once while the flag is raised. *)
Definition guarded (u : update_fn) : bool :=
  match u with
  | self_defense_update | item_collecting_update | torch_placing_update => true
  | hunting_update | idle_staring_update => false
  end.

(** [d] was handed to [execute] by the update of an enabled mode of [ms],
    which is found, updated, in [ms']; [i] is the index of the head. *)
Definition dispatched_by (proto : props) (w : obs) (i : nat)
    (ms ms' : list mode) (d : dispatch) : Prop :=
  i <= d_mode d /\
  exists m, ms !! (d_mode d - i) = Some m /\
            enabled proto m = true /\
            u_dispatch (run_update w m) = Some (d_func d, d_timeout d) /\
            ms' !! (d_mode d - i) = Some (u_mode (run_update w m)).

(** Every pending continuation of [execute] holds a mode of the registry. *)
Definition in_flight_valid (st : state) : Prop :=
  Forall (fun d => d_mode d < length (modes_list st)) (in_flight st).

(** The event shows that the update of mode [n] ran or asked the world. *)
Definition mentions (n : string) (e : event) : Prop :=
  e = EvUpdate n \/ e = EvQuery n.

(** The mode at index [i] is switched off. *)
Definition off_at (i : nat) (st : state) : Prop :=
  exists m, modes_list st !! i = Some m /\ on m = false.

(** ** Vocabulary of the further properties *)

(** What a tick handed to [execute]: the pending actions it appended. *)
Definition started_by (w : obs) (st : state) : list dispatch :=
  drop (length (in_flight st)) (in_flight (ModeController.update w st).1).

(** The mode at index [i] reads as paused. *)
Definition paused_at (i : nat) (st : state) : Prop :=
  exists m, modes_list st !! i = Some m /\ is_paused (object_prototype st) m = true.

(** A raised flag of a mode that works through [execute] is backed by a
    pending action of that mode. *)
Definition flags_backed (st : state) : Prop :=
  forall i m,
    modes_list st !! i = Some m ->
    update m <> idle_staring_update ->
    active m = true ->
    1 <= pending i st.

(** ** What an update can change *)

Ltac unfold_updates :=
  unfold run_update, run_self_defense, run_hunting, run_item_collecting,
    run_torch_placing, run_idle_staring, execute, finish in *.

Ltac split_update := unfold_updates; repeat case_match; simplify_eq/=.

Lemma run_update_literal w m : literal (u_mode (run_update w m)) = literal m.
Proof.
  split_update; unfold literal; simpl; try reflexivity;
    match goal with H : tstate _ = _ |- _ => rewrite H end; reflexivity.
Qed.

Lemma run_update_on w m : on (u_mode (run_update w m)) = on m.
Proof. split_update; reflexivity. Qed.

Lemma run_update_paused w m : paused (u_mode (run_update w m)) = paused m.
Proof. split_update; reflexivity. Qed.

(** An update that hands an action to [execute] leaves the flag raised. *)
Lemma run_update_dispatch_active w m d :
  u_dispatch (run_update w m) = Some d -> active (u_mode (run_update w m)) = true.
Proof. split_update; intros; simplify_eq; reflexivity. Qed.

Lemma run_update_log w m : Forall (own_event (name m)) (u_log (run_update w m)).
Proof.
  split_update;
    repeat first [ apply Forall_nil_2
                 | apply Forall_cons_2
                 | apply Forall_app_2 ];
    simpl; auto.
Qed.

(** ** The two loops of a tick *)

Lemma updates_of_app l1 l2 : updates_of (l1 ++ l2) = updates_of l1 ++ updates_of l2.
Proof.
  induction l1 as [|e l1 IH]; [reflexivity|].
  destruct e; simpl; rewrite IH; reflexivity.
Qed.

Lemma updates_of_own n log : Forall (own_event n) log -> updates_of log = [].
Proof.
  induction 1 as [|e log He _ IH]; [reflexivity|].
  destruct e; simpl in *; try assumption. contradiction.
Qed.

Lemma updates_of_run_update w m : updates_of (u_log (run_update w m)) = [].
Proof. apply (updates_of_own (name m)), run_update_log. Qed.

Section Loops.
Variable proto : props.
Variable w : obs.

Lemma unpause_all_modes ms :
  (ModeController.unpause_all proto ms).1 = set_paused false <$> ms.
Proof.
  induction ms as [|m ms IH]; [reflexivity|]. simpl.
  destruct (ModeController.unpause_all proto ms) as [ms' log']. simpl in *.
  rewrite IH. reflexivity.
Qed.

Lemma unpause_all_log ms :
  updates_of (ModeController.unpause_all proto ms).2 = [] /\
  Forall (fun e => forall n, e <> EvQuery n) (ModeController.unpause_all proto ms).2.
Proof.
  induction ms as [|m ms [IH1 IH2]]; [split; [reflexivity | constructor]|]. simpl.
  destruct (ModeController.unpause_all proto ms) as [ms' log']. simpl in *.
  destruct (is_paused proto m); simpl; split; auto.
Qed.

(** Position by position, the second loop either leaves a mode alone or
    replaces it by the result of its own update, and the latter only for
    an enabled mode. *)
Lemma evaluate_pointwise i ms :
  Forall2 (fun m m' => m' = m \/
                       (enabled proto m = true /\ m' = u_mode (run_update w m)))
          ms (ModeController.evaluate proto w i ms).1.1.
Proof.
  revert i. induction ms as [|m ms IH]; intros i; [constructor|]. simpl.
  specialize (IH (S i)).
  destruct (ModeController.evaluate proto w (S i) ms) as [[ms' log'] ds'].
  simpl in IH. fold (enabled proto m).
  destruct (enabled proto m) eqn:En.
  - destruct (active (u_mode (run_update w m))); simpl.
    + constructor; [right; auto|].
      apply Forall2_same_length_lookup_2; [reflexivity|].
      intros j x y Hx Hy. left. congruence.
    + constructor; [right; auto | assumption].
  - simpl. constructor; [left; reflexivity | assumption].
Qed.

(** Any projection that updates preserve is preserved by the loop. *)
Lemma evaluate_preserves {A} (f : mode -> A) i ms :
  (forall m, f (u_mode (run_update w m)) = f m) ->
  f <$> (ModeController.evaluate proto w i ms).1.1 = f <$> ms.
Proof.
  intros Hf. pose proof (evaluate_pointwise i ms) as H.
  induction H as [|m m' ms ms' Hm _ IH]; [reflexivity|].
  rewrite !fmap_cons, IH. f_equal.
  destruct Hm as [->|[_ ->]]; [reflexivity | apply Hf].
Qed.
End Loops.

Lemma newly_active_same ms : newly_active ms ms = 0.
Proof.
  unfold newly_active. induction ms as [|m ms IH]; [reflexivity|].
  rewrite !fmap_cons. simpl. destruct (active m); simpl; exact IH.
Qed.

Lemma newly_active_cons m m' ms ms' :
  newly_active (m :: ms) (m' :: ms') =
  (if negb (active m) && active m' then 1 else 0) + newly_active ms ms'.
Proof.
  unfold newly_active. rewrite !fmap_cons. simpl.
  destruct (negb (active m) && active m'); reflexivity.
Qed.

Lemma evaluate_newly_active proto w i ms :
  newly_active ms (ModeController.evaluate proto w i ms).1.1 <= 1.
Proof.
  revert i. induction ms as [|m ms IH]; intros i; [unfold newly_active; simpl; lia|].
  simpl. specialize (IH (S i)).
  destruct (ModeController.evaluate proto w (S i) ms) as [[ms' log'] ds'].
  simpl in IH.
  destruct (on m && negb (is_paused proto m)).
  - destruct (active (u_mode (run_update w m))) eqn:Ha; simpl;
      rewrite newly_active_cons.
    + rewrite newly_active_same. destruct (negb (active m) && _); lia.
    + rewrite Ha, andb_false_r. lia.
  - simpl. rewrite newly_active_cons.
    destruct (active m); simpl; lia.
Qed.

Lemma newly_active_flags ms1 ms2 ms1' ms2' :
  active <$> ms1 = active <$> ms2 -> active <$> ms1' = active <$> ms2' ->
  newly_active ms1 ms1' = newly_active ms2 ms2'.
Proof. unfold newly_active. intros -> ->. reflexivity. Qed.

Lemma newly_active_lowered ms i m :
  newly_active ms (<[i := set_active false m]> ms) = 0.
Proof.
  revert i. induction ms as [|m0 ms IH]; intros [|i]; simpl; try reflexivity.
  - rewrite newly_active_cons, newly_active_same. simpl.
    rewrite andb_false_r. reflexivity.
  - rewrite newly_active_cons, IH. destruct (active m0); reflexivity.
Qed.

(** ** The registry keeps its literals *)

Lemma constructor_wf : registry_wf ModeController.constructor.
Proof. split; reflexivity. Qed.

Lemma insert_keeps {A} (f : mode -> A) (ms : list mode) i m m' :
  ms !! i = Some m -> f m' = f m -> f <$> <[i := m']> ms = f <$> ms.
Proof.
  intros Hi Hf. rewrite list_fmap_insert, Hf.
  apply list_insert_id. rewrite list_lookup_fmap, Hi. reflexivity.
Qed.

Lemma write_keeps {A} (f : mode -> A) wr_mode wr_props r st :
  (forall m, f (wr_mode m) = f m) ->
  f <$> modes_list (ModeController.write wr_mode wr_props r st) = f <$> modes_list st.
Proof.
  intros Hf. destruct r as [i| |fn|v]; simpl; try reflexivity.
  destruct (modes_list st !! i) as [m|] eqn:Hi; [|reflexivity].
  simpl. eapply insert_keeps; eauto.
Qed.

Lemma write_modes_map wr_mode wr_props r st :
  modes_map (ModeController.write wr_mode wr_props r st) = modes_map st.
Proof. destruct r; simpl; try reflexivity. destruct (_ !! _); reflexivity. Qed.

(** A call of [setOn] or [pause] either writes through the reference the
    name resolved to, or throws. *)
Lemma setOn_cases st n b :
  (exists r, ModeController.setOn st n b
             = Returned (ModeController.write
                           (set_on b) (fun p => Props (Some b) (p_paused p)) r st)) \/
  (exists msg, ModeController.setOn st n b = Thrown msg).
Proof.
  unfold ModeController.setOn.
  destruct (ModeController.get st n) as [[i| |f|v]|]; eauto.
Qed.

Lemma pause_cases st n :
  (exists r, ModeController.pause st n
             = Returned (ModeController.write
                           (set_paused true) (fun p => Props (p_on p) (Some true)) r st)) \/
  (exists msg, ModeController.pause st n = Thrown msg).
Proof.
  unfold ModeController.pause.
  destruct (ModeController.get st n) as [[i| |f|v]|]; eauto.
Qed.

Lemma update_keeps {A} (f : mode -> A) w st :
  (forall m, f (u_mode (run_update w m)) = f m) ->
  (forall m, f (set_paused false m) = f m) ->
  f <$> modes_list (ModeController.update w st).1 = f <$> modes_list st.
Proof.
  intros Hu Hp. unfold ModeController.update, ModeController.unpause_phase,
    ModeController.evaluation_phase.
  destruct (ctl_idle w).
  - pose proof (unpause_all_modes (object_prototype st) (modes_list st)) as Hm.
    destruct (ModeController.unpause_all _ _) as [ms1 log1]. simpl in *.
    pose proof (evaluate_preserves (object_prototype st) w f 0 ms1 Hu) as He.
    destruct (ModeController.evaluate _ _ _ _) as [[ms2 log2] ds]. simpl in *.
    rewrite He, Hm, <- list_fmap_compose. apply list_fmap_ext. intros _ m _. apply Hp.
  - pose proof (evaluate_preserves (object_prototype st) w f 0 (modes_list st) Hu) as He.
    destruct (ModeController.evaluate _ _ _ _) as [[ms2 log2] ds]. simpl in *.
    exact He.
Qed.

Lemma update_modes_map w st : modes_map (ModeController.update w st).1 = modes_map st.
Proof.
  unfold ModeController.update, ModeController.unpause_phase,
    ModeController.evaluation_phase.
  destruct (ctl_idle w).
  - destruct (ModeController.unpause_all _ _) as [ms1 log1]. simpl.
    destruct (ModeController.evaluate _ _ _ _) as [[ms2 log2] ds]. reflexivity.
  - destruct (ModeController.evaluate _ _ _ _) as [[ms2 log2] ds]. reflexivity.
Qed.

Lemma execute_resume_keeps {A} (f : mode -> A) k o st :
  (forall m, f (set_active false m) = f m) ->
  f <$> modes_list (execute_resume k o st).1 = f <$> modes_list st.
Proof.
  intros Hf. unfold execute_resume.
  destruct (in_flight st !! k) as [d|]; [|reflexivity].
  destruct (modes_list st !! d_mode d) as [m|] eqn:Hm; [|reflexivity].
  simpl. eapply insert_keeps; eauto.
Qed.

Lemma execute_resume_modes_map k o st : modes_map (execute_resume k o st).1 = modes_map st.
Proof. unfold execute_resume. repeat case_match; reflexivity. Qed.

(** Whatever no assignment of the file touches survives every input. *)
Lemma step_keeps {A} (f : mode -> A) st i :
  (forall w m, f (u_mode (run_update w m)) = f m) ->
  (forall b m, f (set_paused b m) = f m) ->
  (forall b m, f (set_active b m) = f m) ->
  (forall b m, f (set_on b m) = f m) ->
  f <$> modes_list (step st i).1 = f <$> modes_list st.
Proof.
  intros Hu Hp Ha Ho. destruct i as [w|k o|n b|n|n|n]; simpl; try reflexivity.
  - apply update_keeps; auto.
  - apply execute_resume_keeps; auto.
  - destruct (setOn_cases st n b) as [[r ->]|[msg ->]]; simpl;
      [apply write_keeps; auto | reflexivity].
  - destruct (pause_cases st n) as [[r ->]|[msg ->]]; simpl;
      [apply write_keeps; auto | reflexivity].
Qed.

Lemma step_modes_map st i : modes_map (step st i).1 = modes_map st.
Proof.
  destruct i as [w|k o|n b|n|n|n]; simpl; try reflexivity.
  - apply update_modes_map.
  - apply execute_resume_modes_map.
  - destruct (setOn_cases st n b) as [[r ->]|[msg ->]]; simpl;
      [apply write_modes_map | reflexivity].
  - destruct (pause_cases st n) as [[r ->]|[msg ->]]; simpl;
      [apply write_modes_map | reflexivity].
Qed.

Lemma step_wf st i : registry_wf st -> registry_wf (step st i).1.
Proof.
  intros [Hl Hm]. split.
  - rewrite <- Hl. apply step_keeps; auto using run_update_literal.
  - rewrite step_modes_map. exact Hm.
Qed.

Lemma run_cons st i ins :
  run st (i :: ins) =
  ((run (step st i).1 ins).1, (step st i).2 ++ (run (step st i).1 ins).2).
Proof.
  simpl. destruct (step st i) as [st1 log1]. simpl.
  destruct (run st1 ins) as [st2 log2]. reflexivity.
Qed.

Lemma run_wf ins : forall st, registry_wf st -> registry_wf (run st ins).1.
Proof.
  induction ins as [|i ins IH]; intros st Hwf; [exact Hwf|].
  rewrite run_cons. simpl. apply IH, step_wf, Hwf.
Qed.

Lemma reachable_wf st : reachable st -> registry_wf st.
Proof. intros [ins <-]. apply run_wf, constructor_wf. Qed.

(** ** C1: how many modes can be active *)

(** C1, as stated, fails: "for every reachable state and every tick, at
    most one mode of the registry has active=true".  After a tick in a
    quiet world idle_staring has raised its flag; when a zombie shows up
    at the next tick self_defense is dispatched and the loop stops before
    idle_staring's update could lower its flag again. *)
Lemma two_modes_active_at_once :
  ~ (forall st, reachable st -> active_count st <= 1).
Proof.
  intros H.
  specialize (H (run ModeController.constructor
                     [Tick quiet; Tick (observe (Some zombie) None None 300)]).1
                (ex_intro _ _ eq_refl)).
  vm_compute in H. lia.
Qed.

(** C1, amended: one tick raises the active flag of at most one mode (at
    most one flag is lowered before the tick and raised after it), and no
    other input raises any.  This bounds what one tick adds, not how many
    modes are active at once. *)
Theorem step_activates_at_most_one st i :
  newly_active (modes_list st) (modes_list (step st i).1) <= 1 /\
  ((forall w, i <> Tick w) ->
   newly_active (modes_list st) (modes_list (step st i).1) = 0).
Proof.
  assert (Hsame : forall ms', active <$> ms' = active <$> modes_list st ->
                              newly_active (modes_list st) ms' = 0).
  { intros ms' E.
    rewrite (newly_active_flags _ (modes_list st) _ (modes_list st) eq_refl E).
    apply newly_active_same. }
  destruct i as [w|k o|n b|n|n|n].
  - split; [|intros H; destruct (H w eq_refl)].
    simpl. unfold ModeController.update, ModeController.unpause_phase,
      ModeController.evaluation_phase.
    destruct (ctl_idle w).
    + pose proof (unpause_all_modes (object_prototype st) (modes_list st)) as Hm.
      destruct (ModeController.unpause_all _ _) as [ms1 log1]. simpl in *.
      pose proof (evaluate_newly_active (object_prototype st) w 0 ms1) as He.
      destruct (ModeController.evaluate _ _ _ _) as [[ms2 log2] ds]. simpl in *.
      rewrite (newly_active_flags _ ms1 _ ms2); [exact He | | reflexivity].
      rewrite Hm, <- list_fmap_compose. apply list_fmap_ext. reflexivity.
    + pose proof (evaluate_newly_active (object_prototype st) w 0 (modes_list st)) as He.
      destruct (ModeController.evaluate _ _ _ _) as [[ms2 log2] ds]. exact He.
  - assert (Hz : newly_active (modes_list st) (modes_list (step st (Settle k o)).1) = 0).
    { simpl. unfold execute_resume.
      destruct (in_flight st !! k) as [d|]; [|apply newly_active_same].
      destruct (modes_list st !! d_mode d) as [m|]; [|apply newly_active_same].
      apply newly_active_lowered. }
    rewrite Hz. split; [lia | reflexivity].
  - rewrite Hsame; [split; [lia | reflexivity]|].
    simpl. destruct (setOn_cases st n b) as [[r ->]|[msg ->]]; simpl;
      [apply write_keeps; reflexivity | reflexivity].
  - rewrite Hsame; [split; [lia | reflexivity] | reflexivity].
  - rewrite Hsame; [split; [lia | reflexivity]|].
    simpl. destruct (pause_cases st n) as [[r ->]|[msg ->]]; simpl;
      [apply write_keeps; reflexivity | reflexivity].
  - rewrite Hsame; [split; [lia | reflexivity] | reflexivity].
Qed.

Lemma step_activates_at_most_one_witness :
  let st := (run ModeController.constructor
                 [Tick quiet; Tick (observe (Some zombie) None None 300)]).1 in
  newly_active (modes_list st)
               (modes_list (step st (Settle 0 (Outcome Succeeded "done"))).1) = 0.
Proof.
  intros st.
  apply (proj2 (step_activates_at_most_one st (Settle 0 (Outcome Succeeded "done")))).
  discriminate.
Defined.

(** ** C2: priority order and short-circuit *)

Ltac split_examined :=
  unfold examined; split; [|split; [|split; [|split; [|split]]]].

Lemma evaluate_examined proto w ms : forall i,
  exists k, examined proto w k ms (ModeController.evaluate proto w i ms).1.1
                     (ModeController.evaluate proto w i ms).1.2.
Proof.
  induction ms as [|m ms IH]; intros i.
  { exists 0. split_examined; simpl; try reflexivity; try lia. }
  simpl. destruct (IH (S i)) as (k & Hk & Hdrop & Htake & Hlog & Hstop & Hearly).
  destruct (ModeController.evaluate proto w (S i) ms) as [[ms' log'] ds'].
  simpl in *. fold (enabled proto m).
  destruct (enabled proto m) eqn:En;
    [destruct (active (u_mode (run_update w m))) eqn:Ha|]; simpl.
  - exists 1. split_examined; simpl; rewrite ?En, ?take_0, ?drop_0; simpl;
      rewrite ?updates_of_run_update; try reflexivity; try lia.
    intros _. exists 0, m. auto.
  - exists (S k). split_examined; simpl; rewrite ?En; simpl;
      rewrite ?updates_of_app, ?updates_of_run_update; simpl;
      try lia; try congruence;
      try (f_equal; exact Htake); try (f_equal; exact Hlog).
    + intros [|j] m0 Hj Hm0 En0 Ha0; simpl in *.
      * congruence.
      * f_equal. apply (Hstop j m0); auto; lia.
    + intros Hlt. destruct Hearly as (j & m0 & <- & Hm0 & En0 & Ha0); [lia|].
      exists (S j), m0. auto.
  - exists (S k). split_examined; simpl; rewrite ?En; try lia; try congruence;
      try (f_equal; exact Htake); try (f_equal; exact Hlog).
    + intros [|j] m0 Hj Hm0 En0 Ha0; simpl in *.
      * congruence.
      * f_equal. apply (Hstop j m0); auto; lia.
    + intros Hlt. destruct Hearly as (j & m0 & <- & Hm0 & En0 & Ha0); [lia|].
      exists (S j), m0. auto.
Qed.

Lemma update_unfold w st :
  ModeController.update w st =
  let st1 := (ModeController.unpause_phase w st).1 in
  let r := ModeController.evaluate (object_prototype st1) w 0 (modes_list st1) in
  (State r.1.1 (modes_map st1) (object_prototype st1) (functions st1)
         (in_flight st1 ++ r.2),
   (ModeController.unpause_phase w st).2 ++ r.1.2).
Proof.
  unfold ModeController.update, ModeController.evaluation_phase.
  destruct (ModeController.unpause_phase w st) as [st1 log1]. simpl.
  destruct (ModeController.evaluate _ _ _ _) as [[ms log] ds]. reflexivity.
Qed.

Lemma unpause_phase_log w st :
  updates_of (ModeController.unpause_phase w st).2 = [] /\
  Forall (fun e => forall n, e <> EvQuery n) (ModeController.unpause_phase w st).2.
Proof.
  unfold ModeController.unpause_phase. destruct (ctl_idle w).
  - pose proof (unpause_all_log (object_prototype st) (modes_list st)) as H.
    destruct (ModeController.unpause_all _ _). exact H.
  - split; [reflexivity | constructor].
Qed.

Lemma unpause_phase_state w st :
  (ModeController.unpause_phase w st).1 =
  if ctl_idle w
  then ModeController.with_modes (set_paused false <$> modes_list st) st
  else st.
Proof.
  unfold ModeController.unpause_phase. destruct (ctl_idle w); [|reflexivity].
  pose proof (unpause_all_modes (object_prototype st) (modes_list st)) as H.
  destruct (ModeController.unpause_all _ _). simpl in *. rewrite H. reflexivity.
Qed.

(** The five modes of a well-formed registry. *)
Lemma wf_modes st :
  registry_wf st ->
  exists m0 m1 m2 m3 m4,
    modes_list st = [m0; m1; m2; m3; m4] /\
    literal <$> [m0; m1; m2; m3; m4] = literal <$> modes.
Proof.
  intros [Hl _].
  destruct (modes_list st) as [|m0 [|m1 [|m2 [|m3 [|m4 [|m5 ms]]]]]];
    try discriminate Hl.
  exists m0, m1, m2, m3, m4. auto.
Qed.

(** C2: each tick examines the modes in registry order, calls the update
    of exactly the examined modes that are on and not paused, and stops
    right after the first one that is active once its update returned.
    In particular, when self_defense can trigger, it is dispatched and
    hunting is neither updated nor asked for a target in that tick,
    whatever hunting would have found. *)
Theorem tick_priority_order w st :
  let st1 := (ModeController.unpause_phase w st).1 in
  let st2 := (ModeController.update w st).1 in
  let log := (ModeController.update w st).2 in
  (exists k, examined (object_prototype st1) w k
                      (modes_list st1) (modes_list st2) log) /\
  (registry_wf st ->
   forall sd enemy,
     modes_list st !! 0 = Some sd ->
     on sd = true -> is_paused (object_prototype st) sd = false ->
     active sd = false ->
     sd_enemy w = Some enemy -> sd_clear w = true ->
     (exists sd', modes_list st2 !! 0 = Some sd' /\ active sd' = true) /\
     in_flight st2 = in_flight st ++ [Dispatch 0 (DefendSelf 8) (-1)] /\
     updates_of log = ["self_defense"] /\
     EvQuery "hunting" ∉ log).
Proof.
  intros st1 st2 log. subst st2 log. rewrite update_unfold. fold st1. simpl.
  split.
  - destruct (evaluate_examined (object_prototype st1) w (modes_list st1) 0)
      as (k & Hk & Hdrop & Htake & Hlog & Hrest).
    exists k. split_examined; try assumption; try apply Hrest.
    rewrite updates_of_app, (proj1 (unpause_phase_log w st)). exact Hlog.
  - intros Hwf sd enemy Hsd Hon Hp Ha He Hc.
    destruct (wf_modes st Hwf) as (m0 & m1 & m2 & m3 & m4 & Hms & Hlit).
    rewrite Hms in Hsd. simpl in Hsd. injection Hsd as ->.
    assert (Hn : name sd = "self_defense") by (unfold literal in Hlit; simplify_eq/=; auto).
    assert (Hu : update sd = self_defense_update)
      by (unfold literal in Hlit; simplify_eq/=; auto).
    clear Hlit.
    assert (Hin : in_flight st1 = in_flight st /\
                  object_prototype st1 = object_prototype st /\
                  exists sd1 rest, modes_list st1 = sd1 :: rest /\
                    (sd1 = sd \/ sd1 = set_paused false sd)).
    { subst st1. rewrite unpause_phase_state. destruct (ctl_idle w); simpl.
      - rewrite Hms. simpl. eauto 10.
      - rewrite Hms. eauto 10. }
    destruct Hin as (Hfl & Hpr & sd1 & rest & Hms1 & Hsd1).
    rewrite Hms1, Hfl, Hpr. simpl.
    assert (En : on sd1 && negb (is_paused (object_prototype st) sd1) = true).
    { destruct Hsd1 as [->| ->]; [rewrite Hon, Hp; reflexivity|].
      simpl. rewrite Hon. reflexivity. }
    assert (Hrun : run_update w sd1 =
                   execute sd1 [EvQuery "self_defense";
                                EvChat ("Fighting " +:+ ent_name enemy +:+ "!")]
                           (DefendSelf 8)).
    { unfold run_update.
      replace (update sd1) with self_defense_update
        by (destruct Hsd1 as [->| ->]; simpl; congruence).
      unfold run_self_defense.
      replace (active sd1) with false
        by (destruct Hsd1 as [->| ->]; simpl; congruence).
      replace (name sd1) with "self_defense"
        by (destruct Hsd1 as [->| ->]; simpl; congruence).
      rewrite He, Hc. reflexivity. }
    rewrite En, Hrun. simpl.
    replace (name sd1) with "self_defense"
      by (destruct Hsd1 as [->| ->]; simpl; congruence).
    destruct (unpause_phase_log w st) as [Hup Hq].
    repeat split.
    + eauto.
    + rewrite updates_of_app, Hup. reflexivity.
    + rewrite elem_of_app, !elem_of_cons, elem_of_nil.
      intros [Hin|[Hin|[Hin|[Hin|[]]]]]; try discriminate Hin.
      rewrite Forall_forall in Hq. exact (Hq _ Hin "hunting" eq_refl).
Qed.

Lemma tick_priority_order_witness :
  let w := observe (Some zombie) (Some cow) None 0 in
  registry_wf ModeController.constructor /\
  updates_of (ModeController.update w ModeController.constructor).2 = ["self_defense"] /\
  EvQuery "hunting" ∉ (ModeController.update w ModeController.constructor).2.
Proof.
  intros w. split; [split; reflexivity|].
  destruct (tick_priority_order w ModeController.constructor) as [_ H].
  destruct (H (conj eq_refl eq_refl) _ zombie eq_refl eq_refl eq_refl eq_refl
              eq_refl eq_refl)
    as (_ & _ & Hu & Hq).
  split; assumption.
Defined.

(** ** C3: the dwell timer of item_collecting *)

Lemma updates_in_a_row_app ws1 ws2 m :
  updates_in_a_row (ws1 ++ ws2) m =
  ((updates_in_a_row ws2 (updates_in_a_row ws1 m).1).1,
   (updates_in_a_row ws1 m).2 ++ (updates_in_a_row ws2 (updates_in_a_row ws1 m).1).2).
Proof.
  revert m. induction ws1 as [|w ws1 IH]; intros m; simpl.
  - destruct (updates_in_a_row ws2 m). reflexivity.
  - rewrite IH. destruct (updates_in_a_row ws1 _) as [m1 ds1]. simpl.
    destruct (updates_in_a_row ws2 m1) as [m2 ds2]. simpl.
    rewrite app_assoc. reflexivity.
Qed.

(** When the update of item_collecting hands the pickup to [execute]. *)
Lemma item_collecting_trigger w m wait prev noticed :
  update m = item_collecting_update ->
  active m = false ->
  tstate m = ItemState wait prev noticed ->
  run_update w m =
  if ic_idle w then
    match eligible_item w prev with
    | Some item =>
        let since := if (noticed =? -1)%Z then ic_now_notice w else noticed in
        if (wait * 1000 <? ic_now_check w - since)%Z
        then Upd (set_active true (set_tstate (ItemState wait (Some item) (-1)) m))
                 [EvQuery (name m); EvChat ("Picking up " +:+ ent_name item +:+ "!")]
                 (Some (PickupNearbyItems, (-1)%Z))
        else Upd (set_tstate (ItemState wait prev since) m) [EvQuery (name m)] None
    | None => Upd (set_tstate (ItemState wait prev (-1)) m) [EvQuery (name m)] None
    end
  else Upd m [] None.
Proof.
  intros Hu Ha Ht. unfold run_update, run_item_collecting, execute, finish.
  rewrite Hu, Ha, Ht, Z.gtb_ltb. reflexivity.
Qed.

(** While the timer runs and the ticks keep seeing an eligible item, no
    pickup is dispatched and the timer is not restarted. *)
Lemma dwelling_ticks prev T ws : forall m,
  update m = item_collecting_update ->
  active m = false ->
  tstate m = ItemState 2 prev T ->
  T <> (-1)%Z ->
  Forall (dwelling prev T) ws ->
  updates_in_a_row ws m = (m, []).
Proof.
  induction ws as [|w ws IH]; intros m Hu Ha Ht HT Hws; [reflexivity|].
  apply Forall_cons in Hws as [(Hidle & [item Hitem] & Hnow) Hws].
  simpl. rewrite (item_collecting_trigger w m 2 prev T Hu Ha Ht), Hidle, Hitem.
  simpl. destruct (Z.eqb_spec T (-1)) as [|_]; [contradiction|].
  destruct (Z.ltb_spec (2 * 1000) (ic_now_check w - T)) as [Hlt|_]; [lia|].
  simpl.
  assert (Hsame : set_tstate (ItemState 2 prev T) m = m)
    by (destruct m; simpl in *; subst; reflexivity).
  rewrite Hsame, (IH m); auto.
Qed.

Lemma set_tstate_twice t t' m : set_tstate t (set_tstate t' m) = set_tstate t m.
Proof. reflexivity. Qed.

Lemma set_tstate_same t m : tstate m = t -> set_tstate t m = m.
Proof. destruct m; simpl; intros ->; reflexivity. Qed.

(** C3, as stated, fails twice.  (1) "triggers at the first tick at or
    after T+2s": an apple noticed at 1000 ms and still the candidate at
    exactly 3000 ms is not picked up, the comparison being strict.
    (2) "if the best candidate changes before T+2s the timer resets and
    the stale timer causes no trigger": the apple is noticed at 1000 ms,
    a bone replaces it as nearest item at 2000 ms, and the pickup is
    dispatched at 3001 ms on the timer started for the apple. *)
Lemma item_dwell_counterexample :
  in_flight (run ModeController.constructor
                 [Tick (observe None None (Some apple) 1000);
                  Tick (observe None None (Some apple) 3000)]).1 = [] /\
  in_flight (run ModeController.constructor
                 [Tick (observe None None (Some apple) 1000);
                  Tick (observe None None (Some bone) 2000);
                  Tick (observe None None (Some bone) 3001)]).1
  = [Dispatch 2 PickupNearbyItems (-1)].
Proof. split; vm_compute; reflexivity. Qed.

(** C3, amended: an item first noticed at time T, with the timer idle
    before, triggers no pickup at any tick up to and including T+2s while
    some eligible item (present, reachable, not the one picked up last)
    is seen at every tick; the pickup is dispatched at the first tick
    strictly later than T+2s that sees an eligible item, which becomes
    prev_item; a tick that sees no eligible item resets the timer, and a
    timer restarted after that counts from its own start. *)
Theorem item_collecting_dwell m prev T w0 ws :
  update m = item_collecting_update ->
  active m = false ->
  tstate m = ItemState 2 prev (-1) ->
  T <> (-1)%Z ->
  ic_now_notice w0 = T ->
  Forall (dwelling prev T) (w0 :: ws) ->
  updates_in_a_row (w0 :: ws) m = (set_tstate (ItemState 2 prev T) m, []) /\
  (forall w item,
     ic_idle w = true -> eligible_item w prev = Some item ->
     (T + 2000 < ic_now_check w)%Z ->
     updates_in_a_row (w0 :: ws ++ [w]) m =
     (set_active true (set_tstate (ItemState 2 (Some item) (-1)) m),
      [(PickupNearbyItems, (-1)%Z)])) /\
  (forall w,
     ic_idle w = true -> eligible_item w prev = None ->
     updates_in_a_row (w0 :: ws ++ [w]) m = (m, []) /\
     forall w',
       ic_idle w' = true -> is_Some (eligible_item w' prev) ->
       (ic_now_check w' - ic_now_notice w' <= 2000)%Z ->
       (updates_in_a_row (w0 :: ws ++ [w; w']) m).2 = []).
Proof.
  intros Hu Ha Ht HT Hw0 Hws.
  set (m1 := set_tstate (ItemState 2 prev T) m).
  assert (Hfirst : updates_in_a_row (w0 :: ws) m = (m1, [])).
  { apply Forall_cons in Hws as [(Hidle & [item Hitem] & Hnow) Hws].
    simpl. rewrite (item_collecting_trigger w0 m 2 prev (-1) Hu Ha Ht), Hidle, Hitem.
    simpl. rewrite Hw0.
    destruct (Z.ltb_spec (2 * 1000) (ic_now_check w0 - T)) as [Hlt|_]; [lia|].
    simpl. fold m1. rewrite (dwelling_ticks prev T ws m1); auto. }
  assert (Hstep : forall tl, updates_in_a_row (w0 :: ws ++ tl) m =
                             updates_in_a_row tl m1).
  { intros tl. change (w0 :: ws ++ tl) with ((w0 :: ws) ++ tl).
    rewrite updates_in_a_row_app, Hfirst. simpl.
    destruct (updates_in_a_row tl m1). reflexivity. }
  split; [exact Hfirst|]. split.
  - intros w item Hidle Hitem Hnow. rewrite Hstep. simpl.
    rewrite (item_collecting_trigger w m1 2 prev T Hu Ha eq_refl), Hidle, Hitem.
    simpl. destruct (Z.eqb_spec T (-1)) as [|_]; [contradiction|].
    destruct (Z.ltb_spec (2 * 1000) (ic_now_check w - T)) as [_|Hge]; [|lia].
    reflexivity.
  - intros w Hidle Hitem.
    assert (Hreset : run_update w m1 = Upd m [EvQuery (name m)] None).
    { rewrite (item_collecting_trigger w m1 2 prev T Hu Ha eq_refl), Hidle, Hitem.
      unfold m1. rewrite set_tstate_twice, (set_tstate_same _ m Ht). reflexivity. }
    split.
    + rewrite Hstep. simpl. rewrite Hreset. reflexivity.
    + intros w' Hidle' [item' Hitem'] Hnow'. rewrite Hstep. simpl.
      rewrite Hreset. simpl.
      rewrite (item_collecting_trigger w' m 2 prev (-1) Hu Ha Ht), Hidle', Hitem'.
      simpl.
      destruct (Z.ltb_spec (2 * 1000) (ic_now_check w' - ic_now_notice w'))
        as [Hlt|_]; [lia|].
      reflexivity.
Qed.

Lemma item_collecting_dwell_witness :
  updates_in_a_row [observe None None (Some apple) 1000;
                    observe None None (Some bone) 3000]
                   (Mode "item_collecting" "" true false None
                         item_collecting_update (ItemState 2 None (-1)))
  = (Mode "item_collecting" "" true false None
          item_collecting_update (ItemState 2 None 1000), []).
Proof.
  refine (proj1 (item_collecting_dwell
                   (Mode "item_collecting" "" true false None
                         item_collecting_update (ItemState 2 None (-1)))
                   None 1000
                   (observe None None (Some apple) 1000)
                   [observe None None (Some bone) 3000]
                   eq_refl eq_refl eq_refl _ eq_refl _)).
  - discriminate.
  - repeat constructor; vm_compute; try discriminate; eauto.
Defined.

(** ** C10 and C4: operations indexed by a mode name *)

Lemma constructor_modes_map n :
  modes_map ModeController.constructor !! n =
  if decide ("idle_staring" = n) then Some 4
  else if decide ("torch_placing" = n) then Some 3
  else if decide ("item_collecting" = n) then Some 2
  else if decide ("hunting" = n) then Some 1
  else if decide ("self_defense" = n) then Some 0
  else None.
Proof.
  unfold ModeController.constructor. simpl.
  rewrite !lookup_insert. repeat case_decide; try reflexivity.
Qed.

Lemma modes_map_registered st n :
  registry_wf st -> (is_Some (modes_map st !! n) <-> n ∈ mode_names).
Proof.
  intros [_ ->]. rewrite constructor_modes_map. unfold mode_names.
  rewrite !elem_of_cons, elem_of_nil.
  repeat case_decide; subst;
    (split; [intros _; tauto | intros _; eexists; reflexivity]) ||
    (split; [intros [? Hx]; discriminate Hx | intros Hx; intuition congruence]).
Qed.

Lemma object_prototype_get_inherited n :
  is_Some (object_prototype_get n) <-> n ∈ object_prototype_names.
Proof.
  unfold object_prototype_get, object_prototype_names.
  rewrite !elem_of_cons.
  destruct (String.eqb_spec n "constructor") as [->|H1]; [split; eauto|].
  destruct (String.eqb_spec n "__proto__") as [->|H2]; [split; eauto|].
  case_bool_decide as H3.
  - split; eauto.
  - split; [intros [? H]; discriminate H|]. intros [?|[?|?]]; contradiction.
Qed.

(** What [exists] answers: a name counts as a mode as soon as the object
    literal behind [modes_map] has or inherits a property of that name,
    the [on] and [paused] that earlier calls wrote on [Object.prototype]
    included. *)
Lemma exists_characterised st n :
  registry_wf st ->
  (ModeController.exists_ st n = true <->
   n ∈ mode_names \/ n ∈ object_prototype_names \/
   (n = "on" /\ is_Some (p_on (object_prototype st))) \/
   (n = "paused" /\ is_Some (p_paused (object_prototype st)))).
Proof.
  intros Hwf. rewrite <- (modes_map_registered st n Hwf),
    <- object_prototype_get_inherited.
  unfold ModeController.exists_, ModeController.get.
  destruct (modes_map st !! n) as [i|]; [split; eauto|].
  destruct (object_prototype_get n); [split; eauto|].
  destruct (String.eqb_spec n "on") as [->|Hon].
  { destruct (p_on (object_prototype st)); simpl.
    - split; eauto 6.
    - split; [discriminate|].
      intros [[? H]|[[? H]|[[_ [? H]]|[H _]]]]; discriminate H. }
  destruct (String.eqb_spec n "paused") as [->|Hpa].
  { destruct (p_paused (object_prototype st)); simpl.
    - split; eauto 6.
    - split; [discriminate|].
      intros [[? H]|[[? H]|[[H _]|[_ [? H]]]]]; discriminate H. }
  split; [discriminate|].
  intros [[? H]|[[? H]|[[H _]|[H _]]]]; try discriminate H; contradiction.
Qed.

(** C10, at the failing input: "constructor" is not one of the five mode
    names, yet [exists("constructor")] answers true, because the lookup on
    the object literal [modes_map] finds the inherited
    [Object.prototype.constructor]. *)
Theorem exists_accepts_inherited_name :
  ("constructor" ∉ mode_names) /\
  ModeController.exists_ ModeController.constructor "constructor" = true.
Proof.
  split; [|reflexivity].
  unfold mode_names. rewrite !elem_of_cons, elem_of_nil.
  intros [H|[H|[H|[H|[H|[]]]]]]; discriminate H.
Qed.

(** A name that resolves to [undefined] makes the three operations throw
    before anything is written. *)
Lemma undefined_name_throws st n b :
  ModeController.get st n = None ->
  (exists msg, ModeController.setOn st n b = Thrown msg) /\
  (exists msg, ModeController.isOn st n = Thrown msg) /\
  (exists msg, ModeController.pause st n = Thrown msg) /\
  (step st (SetOn n b)).1 = st /\
  (step st (IsOn n)).1 = st /\
  (step st (Pause n)).1 = st.
Proof.
  intros H. simpl.
  unfold ModeController.setOn, ModeController.isOn, ModeController.pause.
  rewrite H. simpl. eauto 10.
Qed.

Lemma undefined_names st n :
  registry_wf st ->
  (ModeController.get st n = None <->
   ModeController.exists_ st n = false).
Proof.
  intros _. unfold ModeController.exists_.
  destruct (ModeController.get st n); split; congruence.
Qed.

(** C4, at the failing inputs: "toString" and "__proto__" are not mode
    names, yet [pause], [setOn] and [isOn] return normally on them, the
    lookup on [modes_map] having found an inherited property of
    [Object.prototype].  [pause("__proto__")] writes [paused] on
    [Object.prototype] itself, which every mode without a [paused]
    property of its own then reads as true. *)
Theorem inherited_name_is_absorbed :
  ("toString" ∉ mode_names) /\ ("__proto__" ∉ mode_names) /\
  (exists st', ModeController.pause ModeController.constructor "toString" = Returned st') /\
  (exists st', ModeController.setOn ModeController.constructor "toString" false = Returned st') /\
  ModeController.isOn ModeController.constructor "toString" = Returned None /\
  Forall (fun m => is_paused (object_prototype ModeController.constructor) m = false)
         (modes_list ModeController.constructor) /\
  (exists st',
     ModeController.pause ModeController.constructor "__proto__" = Returned st' /\
     Forall (fun m => is_paused (object_prototype st') m = true) (modes_list st')).
Proof.
  assert (Hn : forall n, n ∈ mode_names ->
                         n = "self_defense" \/ n = "hunting" \/ n = "item_collecting" \/
                         n = "torch_placing" \/ n = "idle_staring").
  { intros n. unfold mode_names. rewrite !elem_of_cons, elem_of_nil. tauto. }
  split; [intros H; apply Hn in H; destruct H as [H|[H|[H|[H|H]]]]; discriminate H|].
  split; [intros H; apply Hn in H; destruct H as [H|[H|[H|[H|H]]]]; discriminate H|].
  split; [eexists; reflexivity|].
  split; [eexists; reflexivity|].
  split; [reflexivity|].
  split; [repeat constructor|].
  eexists. split; [reflexivity|]. repeat constructor.
Qed.

(** ** What one input does to one mode *)

Lemma Forall2_insert_right {A} (R : A -> A -> Prop) (l : list A) i x y :
  (forall a, R a a) -> l !! i = Some x -> R x y -> Forall2 R l (<[i := y]> l).
Proof.
  intros Hrefl Hi Hxy. apply Forall2_same_length_lookup_2.
  - rewrite length_insert. reflexivity.
  - intros j a b Ha Hb. destruct (decide (i = j)) as [->|Hne].
    + rewrite list_lookup_insert_eq in Hb by (eapply lookup_lt_Some; eauto).
      congruence.
    + rewrite list_lookup_insert_ne in Hb by assumption.
      assert (a = b) as -> by congruence. apply Hrefl.
Qed.

Lemma write_pointwise i wr_mode wr_props r st :
  (forall m, changed_by i m (wr_mode m)) ->
  Forall2 (changed_by i) (modes_list st)
          (modes_list (ModeController.write wr_mode wr_props r st)).
Proof.
  intros H.
  assert (Hsame : Forall2 (changed_by i) (modes_list st) (modes_list st)).
  { apply Forall2_same_length_lookup_2; [reflexivity|].
    intros j a b Ha Hb. assert (a = b) as -> by congruence. constructor. }
  destruct r as [j| |f|v]; simpl; try exact Hsame.
  destruct (modes_list st !! j) as [m|] eqn:Hj; [|exact Hsame].
  simpl. eapply Forall2_insert_right; eauto. constructor.
Qed.

Lemma step_pointwise st i :
  Forall2 (changed_by i) (modes_list st) (modes_list (step st i).1).
Proof.
  assert (Hsame : Forall2 (changed_by i) (modes_list st) (modes_list st)).
  { apply Forall2_same_length_lookup_2; [reflexivity|].
    intros j a b Ha Hb. assert (a = b) as -> by congruence. constructor. }
  destruct i as [w|k o|n b|n|n|n]; simpl; try exact Hsame.
  - rewrite update_unfold. simpl. rewrite unpause_phase_state.
    assert (Hun : forall m, (if ctl_idle w then set_paused false m else m)
                            = unpaused_by w m) by reflexivity.
    destruct (ctl_idle w) eqn:Hidle; simpl.
    + pose proof (evaluate_pointwise (object_prototype st) w 0
                    (set_paused false <$> modes_list st)) as He.
      apply Forall2_fmap_l in He. eapply Forall2_impl; [exact He|]. simpl.
      intros m m' [->|[_ ->]]; rewrite (Hun m); constructor.
    + pose proof (evaluate_pointwise (object_prototype st) w 0 (modes_list st)) as He.
      eapply Forall2_impl; [exact He|]. simpl.
      intros m m' [->|[_ ->]]; [constructor|].
      replace (run_update w m) with (run_update w (unpaused_by w m))
        by (rewrite <- Hun; reflexivity).
      constructor.
  - unfold execute_resume.
    destruct (in_flight st !! k) as [d|]; [|exact Hsame].
    destruct (modes_list st !! d_mode d) as [m|] eqn:Hm; [|exact Hsame].
    simpl. eapply Forall2_insert_right; eauto; constructor.
  - destruct (setOn_cases st n b) as [[r ->]|[msg ->]]; simpl;
      [|exact Hsame]. apply write_pointwise. constructor.
  - destruct (pause_cases st n) as [[r ->]|[msg ->]]; simpl;
      [|exact Hsame]. apply write_pointwise. constructor.
Qed.

Lemma step_lookup st i j m :
  modes_list st !! j = Some m ->
  exists m', modes_list (step st i).1 !! j = Some m' /\ changed_by i m m'.
Proof.
  intros Hj. pose proof (step_pointwise st i) as H.
  destruct (Forall2_lookup_l _ _ _ _ _ H Hj) as (m' & Hm' & Hch). eauto.
Qed.

(** [Object.prototype.paused] is only ever written to true. *)
Lemma step_prototype_paused st i :
  p_paused (object_prototype st) = Some true ->
  p_paused (object_prototype (step st i).1) = Some true.
Proof.
  intros H. destruct i as [w|k o|n b|n|n|n]; simpl; try exact H.
  - rewrite update_unfold. simpl. rewrite unpause_phase_state.
    destruct (ctl_idle w); exact H.
  - unfold execute_resume. repeat case_match; exact H.
  - unfold ModeController.setOn.
    destruct (ModeController.get st n) as [[j| |f|v]|]; simpl; try exact H.
    destruct (modes_list st !! j); exact H.
  - unfold ModeController.pause.
    destruct (ModeController.get st n) as [[j| |f|v]|]; simpl; try exact H; try reflexivity.
    destruct (modes_list st !! j); exact H.
Qed.

(** ** C6: the pause protocol *)

Lemma is_paused_stable proto proto' m m' :
  is_paused proto m = true ->
  paused m' = paused m \/ paused m' = Some true ->
  (p_paused proto = Some true -> p_paused proto' = Some true) ->
  is_paused proto' m' = true.
Proof.
  unfold is_paused. intros Hp [->| ->] Hproto; [|reflexivity].
  destruct (paused m) as [b|]; [exact Hp|].
  destruct (p_paused proto) as [[]|]; try discriminate Hp.
  rewrite Hproto; reflexivity.
Qed.

(** C6: when the idle predicate answers true at the start of a tick, the
    evaluation loop of that tick starts from the state the tick found,
    with [paused = false] written on every mode and nothing else changed:
    each mode of the registry is there, at its position, and none is
    paused any longer.  Nothing else ever unpauses: a paused mode stays
    paused through the evaluation loop, through a tick of a busy agent,
    through the continuation of [execute] and through [setOn], [isOn],
    [pause] and [exists]. *)
Theorem idle_tick_unpauses :
  (forall w st,
     ctl_idle w = true ->
     let st1 := (ModeController.unpause_phase w st).1 in
     st1 = ModeController.with_modes (set_paused false <$> modes_list st) st /\
     (forall j m, modes_list st !! j = Some m ->
                  modes_list st1 !! j = Some (set_paused false m) /\
                  is_paused (object_prototype st1) (set_paused false m) = false) /\
     Forall (fun m => is_paused (object_prototype st1) m = false) (modes_list st1) /\
     (ModeController.update w st).1 = (ModeController.evaluation_phase w st1).1) /\
  (forall w st,
     paused <$> modes_list (ModeController.evaluation_phase w st).1
     = paused <$> modes_list st) /\
  (forall st i j m,
     modes_list st !! j = Some m ->
     is_paused (object_prototype st) m = true ->
     (forall w, i = Tick w -> ctl_idle w = false) ->
     exists m', modes_list (step st i).1 !! j = Some m' /\
                is_paused (object_prototype (step st i).1) m' = true).
Proof.
  split; [|split].
  - intros w st Hidle st1.
    assert (Hst1 : st1 = ModeController.with_modes
                           (set_paused false <$> modes_list st) st).
    { subst st1. rewrite unpause_phase_state, Hidle. reflexivity. }
    split; [exact Hst1|]. split; [|split].
    + intros j m Hj. rewrite Hst1. simpl.
      rewrite list_lookup_fmap, Hj. split; reflexivity.
    + rewrite Hst1. simpl.
      rewrite Forall_fmap. apply Forall_true. reflexivity.
    + unfold ModeController.update. fold st1.
      destruct (ModeController.unpause_phase w st) as [s l]. simpl in *. subst st1.
      destruct (ModeController.evaluation_phase w s). reflexivity.
  - intros w st. unfold ModeController.evaluation_phase.
    pose proof (evaluate_preserves (object_prototype st) w paused 0 (modes_list st)
                  (run_update_paused w)) as H.
    destruct (ModeController.evaluate _ _ _ _) as [[ms log] ds]. exact H.
  - intros st i j m Hj Hp Hbusy.
    destruct (step_lookup st i j m Hj) as (m' & Hm' & Hch).
    exists m'. split; [exact Hm'|].
    apply (is_paused_stable (object_prototype st) _ m); auto using step_prototype_paused.
    destruct Hch; simpl; auto.
    + unfold unpaused_by. rewrite (Hbusy w eq_refl). auto.
    + rewrite run_update_paused. unfold unpaused_by. rewrite (Hbusy w eq_refl). auto.
Qed.

Lemma idle_tick_unpauses_witness :
  let st := (step ModeController.constructor (Pause "hunting")).1 in
  (exists m, modes_list st !! 1 = Some m /\ is_paused (object_prototype st) m = true) /\
  (exists m', modes_list (step st (Tick busy)).1 !! 1 = Some m' /\
              is_paused (object_prototype (step st (Tick busy)).1) m' = true) /\
  (ModeController.unpause_phase quiet st).1
  = ModeController.with_modes (set_paused false <$> modes_list st) st /\
  Forall (fun m => is_paused (object_prototype (ModeController.unpause_phase quiet st).1) m
                   = false)
         (modes_list (ModeController.unpause_phase quiet st).1).
Proof.
  intros st. destruct idle_tick_unpauses as (Hidle & _ & Hkeep).
  split; [eexists; split; reflexivity|]. split; [|split].
  - eapply Hkeep; [reflexivity | reflexivity |].
    intros w Hw. injection Hw as <-. reflexivity.
  - exact (proj1 (Hidle quiet st eq_refl)).
  - exact (proj1 (proj2 (proj2 (Hidle quiet st eq_refl)))).
Defined.

(** ** C7: the guard on the active flag *)

Lemma guarded_update_returns w m :
  active m = true -> guarded (update m) = true -> run_update w m = Upd m [] None.
Proof.
  intros Ha Hg. unfold run_update.
  destruct (update m); try discriminate Hg;
    unfold run_self_defense, run_item_collecting, run_torch_placing, finish;
    rewrite Ha; reflexivity.
Qed.

(** C7, as stated, fails for two of the five modes.  hunting: after a
    tick that dispatched the hunt its flag is raised, and the next tick of
    an agent that still reports idle asks the world for a target again and
    hands a second action to [execute].  idle_staring: its flag is raised
    by an idle tick and its update runs in full at the next one. *)
Lemma active_mode_evaluated_again :
  let hunt := Tick (observe None (Some cow) None 0) in
  let st := (run ModeController.constructor [hunt]).1 in
  active <$> modes_list st !! 1 = Some true /\
  (step st hunt).2 = [EvUpdate "self_defense"; EvQuery "self_defense";
                      EvUpdate "hunting"; EvQuery "hunting"] /\
  in_flight (step st hunt).1
  = [Dispatch 1 (ChatAndAttack cow) (-1); Dispatch 1 (ChatAndAttack cow) (-1)] /\
  let st' := (run ModeController.constructor [Tick quiet]).1 in
  active <$> modes_list st' !! 4 = Some true /\
  (step st' (Tick quiet)).2
  = [EvUpdate "self_defense"; EvQuery "self_defense";
     EvUpdate "hunting"; EvQuery "hunting";
     EvUpdate "item_collecting"; EvQuery "item_collecting";
     EvUpdate "torch_placing"; EvQuery "torch_placing";
     EvUpdate "idle_staring"; EvQuery "idle_staring"].
Proof. vm_compute. repeat split; reflexivity. Qed.

(** C7, amended: for self_defense, item_collecting and torch_placing, a
    raised active flag makes the update return at once, without asking the
    world for a target and without handing anything to [execute]; the
    flag stays raised through every input other than the settling of an
    action of that very mode, and that settling, the continuation of
    [execute], lowers it.  The update of idle_staring, whose flag is a
    marker that no action is attached to, has no such guard: called while
    the agent is idle it runs in full, raised flag or not, asks the world
    for the nearest entity, leaves the flag raised and hands nothing to
    [execute]. *)
Theorem guarded_modes_skip_while_active :
  (forall w m,
     active m = true -> guarded (update m) = true ->
     run_update w m = Upd m [] None) /\
  (forall st i j m,
     modes_list st !! j = Some m ->
     active m = true -> guarded (update m) = true ->
     (forall k o d, i = Settle k o -> in_flight st !! k = Some d -> d_mode d <> j) ->
     exists m', modes_list (step st i).1 !! j = Some m' /\
                active m' = true /\ guarded (update m') = true) /\
  (forall st k o d m,
     in_flight st !! k = Some d -> modes_list st !! d_mode d = Some m ->
     modes_list (step st (Settle k o)).1 !! d_mode d = Some (set_active false m)) /\
  (forall w m s l n,
     update m = idle_staring_update -> tstate m = StareState s l n ->
     st_idle w = true ->
     EvQuery (name m) ∈ u_log (run_update w m) /\
     active (u_mode (run_update w m)) = true /\
     u_dispatch (run_update w m) = None).
Proof.
  split; [exact guarded_update_returns|]. split; [|split].
  - intros st i j m Hj Ha Hg Hi.
    assert (Hsettle : forall k o, i = Settle k o ->
              modes_list (step st i).1 !! j = Some m).
    { intros k o ->. simpl. unfold execute_resume.
      destruct (in_flight st !! k) as [d|] eqn:Hk; [|exact Hj].
      destruct (modes_list st !! d_mode d) as [md|]; [|exact Hj]. simpl.
      rewrite list_lookup_insert_ne by exact (Hi k o d eq_refl Hk). exact Hj. }
    destruct (step_lookup st i j m Hj) as (m' & Hm' & Hch).
    destruct Hch as [i m|w m|w m|k o m|n b m|n m].
    + exists m. auto.
    + exists (unpaused_by w m). split; [exact Hm'|].
      unfold unpaused_by. destruct (ctl_idle w); auto.
    + eexists. split; [exact Hm'|].
      rewrite guarded_update_returns; unfold unpaused_by; destruct (ctl_idle w); auto.
    + exists m. split; [exact (Hsettle k o eq_refl) | auto].
    + exists (set_on b m). auto.
    + exists (set_paused true m). auto.
  - intros st k o d m Hk Hm. simpl. unfold execute_resume. rewrite Hk, Hm. simpl.
    apply list_lookup_insert_eq. eapply lookup_lt_Some, Hm.
  - intros w m s l n Hu Ht Hidle. unfold run_update. rewrite Hu.
    unfold run_idle_staring. rewrite Ht, Hidle.
    repeat case_match; simpl; repeat split; try reflexivity; apply list_elem_of_here.
Qed.

Lemma guarded_modes_skip_while_active_witness :
  let st := (run ModeController.constructor
                 [Tick (observe None (Some cow) None 0);
                  Tick (observe (Some zombie) None None 0)]).1 in
  let settled := Settle 0 (Outcome Succeeded "done") in
  in_flight st = [Dispatch 1 (ChatAndAttack cow) (-1); Dispatch 0 (DefendSelf 8) (-1)] /\
  exists m', modes_list (step st settled).1 !! 0 = Some m' /\
             active m' = true /\ guarded (update m') = true.
Proof.
  intros st settled. split; [reflexivity|].
  refine (proj1 (proj2 guarded_modes_skip_while_active) st settled 0 _
                eq_refl eq_refl eq_refl _).
  intros k o d Hi Hd. injection Hi as <- <-. injection Hd as <-. discriminate.
Defined.

(** ** What a tick hands to [execute] *)

Lemma dispatched_by_shift proto w i m m' ms ms' d :
  dispatched_by proto w (S i) ms ms' d ->
  dispatched_by proto w i (m :: ms) (m' :: ms') d.
Proof.
  intros (Hle & m0 & Hm0 & Hrest). split; [lia|].
  exists m0. replace (d_mode d - i) with (S (d_mode d - S i)) by lia.
  simpl. split; [exact Hm0|]. exact Hrest.
Qed.

Lemma evaluate_dispatches proto w ms : forall i,
  Forall (dispatched_by proto w i ms (ModeController.evaluate proto w i ms).1.1)
         (ModeController.evaluate proto w i ms).2.
Proof.
  induction ms as [|m ms IH]; intros i; [constructor|].
  simpl. specialize (IH (S i)).
  destruct (ModeController.evaluate proto w (S i) ms) as [[ms' log'] ds'].
  simpl in IH. fold (enabled proto m).
  destruct (enabled proto m) eqn:En.
  - assert (Hstarted : forall tl,
      Forall (dispatched_by proto w i (m :: ms) (u_mode (run_update w m) :: tl))
             match u_dispatch (run_update w m) with
             | Some (func, timeout) => [Dispatch i func timeout]
             | None => []
             end).
    { intros tl. destruct (u_dispatch (run_update w m)) as [[f t]|] eqn:Hd;
        constructor; [|constructor].
      split; simpl; [lia|]. exists m. rewrite Nat.sub_diag. simpl. auto. }
    destruct (active (u_mode (run_update w m))); simpl.
    + apply Hstarted.
    + apply Forall_app. split; [apply Hstarted|].
      eapply Forall_impl; [exact IH|]. intros d. apply dispatched_by_shift.
  - simpl. eapply Forall_impl; [exact IH|]. intros d. apply dispatched_by_shift.
Qed.

(** The pending list after a tick: the old one, then what the tick started. *)
Lemma update_in_flight w st :
  let st1 := (ModeController.unpause_phase w st).1 in
  exists ds,
    in_flight (ModeController.update w st).1 = in_flight st ++ ds /\
    Forall (dispatched_by (object_prototype st) w 0 (modes_list st1)
                          (modes_list (ModeController.update w st).1)) ds.
Proof.
  intros st1. rewrite update_unfold. fold st1. simpl.
  assert (Hsame : in_flight st1 = in_flight st /\
                  object_prototype st1 = object_prototype st).
  { subst st1. rewrite unpause_phase_state. destruct (ctl_idle w); auto. }
  destruct Hsame as [-> <-].
  eexists. split; [reflexivity|]. apply evaluate_dispatches.
Qed.

Lemma step_length st i : length (modes_list (step st i).1) = length (modes_list st).
Proof. symmetry. eapply Forall2_length, step_pointwise. Qed.

Lemma step_in_flight st i :
  match i with
  | Tick w =>
      exists ds, in_flight (step st i).1 = in_flight st ++ ds /\
                 Forall (fun d => exists m', modes_list (step st i).1 !! d_mode d = Some m' /\
                                             active m' = true) ds
  | Settle k o =>
      in_flight (step st i).1 = in_flight st \/
      in_flight (step st i).1 = delete k (in_flight st)
  | _ => in_flight (step st i).1 = in_flight st
  end.
Proof.
  destruct i as [w|k o|n b|n|n|n]; simpl; try reflexivity.
  - destruct (update_in_flight w st) as (ds & Hfl & Hds).
    exists ds. split; [exact Hfl|].
    eapply Forall_impl; [exact Hds|]. intros d (_ & m & _ & _ & Hd & Hm').
    rewrite Nat.sub_0_r in Hm'. eexists. split; [exact Hm'|].
    eapply run_update_dispatch_active, Hd.
  - unfold execute_resume. repeat case_match; auto.
  - unfold ModeController.setOn.
    destruct (ModeController.get st n) as [[j| |f|v]|]; simpl; try reflexivity.
    destruct (modes_list st !! j); reflexivity.
  - unfold ModeController.pause.
    destruct (ModeController.get st n) as [[j| |f|v]|]; simpl; try reflexivity.
    destruct (modes_list st !! j); reflexivity.
Qed.

Lemma step_in_flight_valid st i : in_flight_valid st -> in_flight_valid (step st i).1.
Proof.
  unfold in_flight_valid. intros H. rewrite step_length.
  pose proof (step_in_flight st i) as Hfl.
  destruct i as [w|k o|n b|n|n|n]; try (rewrite Hfl; exact H).
  - destruct Hfl as (ds & -> & Hds). apply Forall_app. split; [exact H|].
    eapply Forall_impl; [exact Hds|]. intros d (m' & Hm' & _).
    rewrite <- (step_length st (Tick w)). eapply lookup_lt_Some, Hm'.
  - destruct Hfl as [-> | ->]; [exact H|].
    apply Forall_forall. intros d Hd. rewrite Forall_forall in H. apply H.
    apply list_elem_of_lookup in Hd as [j Hj].
    apply list_elem_of_lookup. destruct (decide (j < k)).
    + exists j. rewrite list_lookup_delete_lt in Hj by assumption. exact Hj.
    + exists (S j). rewrite list_lookup_delete_ge in Hj by lia. exact Hj.
Qed.

Lemma reachable_in_flight_valid st : reachable st -> in_flight_valid st.
Proof.
  intros [ins <-].
  assert (H : forall st0, in_flight_valid st0 -> in_flight_valid (run st0 ins).1).
  { induction ins as [|i ins IH]; intros st0 H0; [exact H0|].
    rewrite run_cons. simpl. apply IH, step_in_flight_valid, H0. }
  apply H. constructor.
Qed.

(** ** C5: one invocation of the execution wrapper *)

(** C5, at the failing input: two ticks of an idle agent with a cow in
    range, then the settling of the hunts.  The update of hunting has no
    [if (this.active) return], so the second tick calls [execute] on a
    mode whose flag is already raised: that invocation makes no
    transition from false to true and a second action of the same mode is
    in flight.  The first action to settle lowers the flag while the
    other is still pending, and the settling of that other one finds the
    flag already lowered: two invocations, one transition up and one
    down. *)
Theorem execute_on_raised_flag :
  let hunt := Tick (observe None (Some cow) None 0) in
  let settled := Settle 0 (Outcome Succeeded "done") in
  let flag st := active <$> modes_list st !! 1 in
  let st0 := ModeController.constructor in
  let st1 := (step st0 hunt).1 in
  let st2 := (step st1 hunt).1 in
  let st3 := (step st2 settled).1 in
  let st4 := (step st3 settled).1 in
  name <$> modes_list st0 !! 1 = Some "hunting" /\
  flag st0 = Some false /\ in_flight st0 = [] /\
  flag st1 = Some true /\
  in_flight st1 = [Dispatch 1 (ChatAndAttack cow) (-1)] /\
  (step st1 hunt).2 = [EvUpdate "self_defense"; EvQuery "self_defense";
                       EvUpdate "hunting"; EvQuery "hunting"] /\
  flag st2 = Some true /\
  in_flight st2 = [Dispatch 1 (ChatAndAttack cow) (-1);
                   Dispatch 1 (ChatAndAttack cow) (-1)] /\
  (step st2 settled).2
  = [EvConsole "Mode hunting finished executing, code_return: done"] /\
  flag st3 = Some false /\
  in_flight st3 = [Dispatch 1 (ChatAndAttack cow) (-1)] /\
  flag st4 = Some false /\ in_flight st4 = [].
Proof. vm_compute. repeat split; reflexivity. Qed.

(** ** C9: idle_staring *)

Lemma unpause_phase_wf w st :
  registry_wf st -> registry_wf (ModeController.unpause_phase w st).1.
Proof.
  intros [Hl Hm]. rewrite unpause_phase_state.
  destruct (ctl_idle w); [|split; assumption].
  split; [|exact Hm].
  change (literal <$> (set_paused false <$> modes_list st) = literal <$> modes).
  rewrite <- Hl, <- list_fmap_compose. apply list_fmap_ext. reflexivity.
Qed.

Lemma wf_idle_staring st m :
  registry_wf st -> modes_list st !! 4 = Some m ->
  name m = "idle_staring" /\ update m = idle_staring_update /\
  exists s l n, tstate m = StareState s l n.
Proof.
  intros Hwf Hm.
  destruct (wf_modes st Hwf) as (m0 & m1 & m2 & m3 & m4 & Hms & Hlit).
  rewrite Hms in Hm. simpl in Hm. injection Hm as ->.
  unfold literal in Hlit. simplify_eq/=.
  repeat split; try assumption.
  destruct (tstate m); try discriminate. eauto.
Qed.

Lemma idle_staring_never_pending st :
  reachable st -> Forall (fun d => d_mode d <> 4) (in_flight st).
Proof.
  intros [ins <-].
  assert (H : forall st0, registry_wf st0 ->
                          Forall (fun d => d_mode d <> 4) (in_flight st0) ->
                          Forall (fun d => d_mode d <> 4) (in_flight (run st0 ins).1)).
  { induction ins as [|i ins IH]; intros st0 Hwf H0; [exact H0|].
    rewrite run_cons. simpl. apply IH; [apply step_wf, Hwf|].
    pose proof (step_in_flight st0 i) as Hfl.
    destruct i as [w|k o|n b|n|n|n]; try (rewrite Hfl; exact H0).
    - clear Hfl. destruct (update_in_flight w st0) as (ds & Hfl & Hds).
      simpl. rewrite Hfl. apply Forall_app. split; [exact H0|].
      eapply Forall_impl; [exact Hds|].
      intros d (_ & m & Hm & _ & Hd & _) H4.
      rewrite Nat.sub_0_r, H4 in Hm.
      destruct (wf_idle_staring _ m (unpause_phase_wf w st0 Hwf) Hm) as (_ & Hu & _).
      unfold run_update in Hd. rewrite Hu in Hd.
      unfold run_idle_staring, finish in Hd. repeat case_match; discriminate Hd.
    - destruct Hfl as [-> | ->]; [exact H0|].
      apply Forall_forall. intros d Hd. rewrite Forall_forall in H0. apply H0.
      apply list_elem_of_lookup in Hd as [j Hj].
      apply list_elem_of_lookup. destruct (decide (j < k)).
      + exists j. rewrite list_lookup_delete_lt in Hj by assumption. exact Hj.
      + exists (S j). rewrite list_lookup_delete_ge in Hj by lia. exact Hj. }
  apply H; [apply constructor_wf | constructor].
Qed.

(** C9: the update of idle_staring never hands an action to [execute],
    so no pending action ever belongs to it; run while the agent is idle
    it raises the active flag, and run while the agent is not idle it does
    nothing but lower it. *)
Theorem idle_staring_marks_activity :
  (forall w m, u_dispatch (run_idle_staring w m) = None) /\
  (forall st, reachable st ->
     (exists m, modes_list st !! 4 = Some m /\ name m = "idle_staring" /\
                forall w, run_update w m = run_idle_staring w m) /\
     Forall (fun d => d_mode d <> 4) (in_flight st)) /\
  (forall w m s l n,
     tstate m = StareState s l n ->
     (st_idle w = true -> active (u_mode (run_idle_staring w m)) = true) /\
     (st_idle w = false -> run_idle_staring w m = Upd (set_active false m) [] None)).
Proof.
  split; [|split].
  - intros w m. unfold run_idle_staring, finish. repeat case_match; reflexivity.
  - intros st Hr. split; [|apply idle_staring_never_pending, Hr].
    pose proof (reachable_wf st Hr) as Hwf.
    destruct (wf_modes st Hwf) as (m0 & m1 & m2 & m3 & m4 & Hms & Hlit).
    exists m4. split; [rewrite Hms; reflexivity|].
    destruct (wf_idle_staring st m4 Hwf) as (Hn & Hu & _);
      [rewrite Hms; reflexivity|].
    split; [exact Hn|].
    intros w. unfold run_update. rewrite Hu. reflexivity.
  - intros w m s l n Ht. unfold run_idle_staring, finish. rewrite Ht. split.
    + intros ->. repeat case_match; reflexivity.
    + intros ->. reflexivity.
Qed.

Lemma idle_staring_marks_activity_witness :
  Forall (fun d => d_mode d <> 4)
         (in_flight (run ModeController.constructor [Tick quiet; Tick busy]).1) /\
  active (u_mode (run_idle_staring quiet
                    (Mode "idle_staring" "" true false None idle_staring_update
                          (StareState false None 0)))) = true.
Proof.
  destruct idle_staring_marks_activity as (_ & Hreach & Hflag).
  split.
  - apply Hreach. exists [Tick quiet; Tick busy]. reflexivity.
  - apply (proj1 (Hflag quiet
                        (Mode "idle_staring" "" true false None idle_staring_update
                              (StareState false None 0))
                        false None 0%Q eq_refl)).
    reflexivity.
Defined.

(** ** C8: a mode that is switched off *)

Lemma unpause_phase_console w st :
  Forall (fun e => exists s, e = EvConsole s) (ModeController.unpause_phase w st).2.
Proof.
  unfold ModeController.unpause_phase. destruct (ctl_idle w); [|constructor].
  assert (H : forall ms, Forall (fun e => exists s, e = EvConsole s)
                                (ModeController.unpause_all (object_prototype st) ms).2).
  { induction ms as [|m ms IH]; [constructor|]. simpl.
    destruct (ModeController.unpause_all _ ms) as [ms' log']. simpl in *.
    destruct (is_paused _ m); simpl; [constructor; eauto | exact IH]. }
  specialize (H (modes_list st)).
  destruct (ModeController.unpause_all _ _). exact H.
Qed.

(** An event about mode [n] in the trace of the second loop comes from an
    enabled mode of that name. *)
Lemma evaluate_mentions proto w n e ms : forall i,
  e ∈ (ModeController.evaluate proto w i ms).1.2 -> mentions n e ->
  exists m, m ∈ ms /\ enabled proto m = true /\ name m = n.
Proof.
  induction ms as [|m ms IH]; intros i; simpl; [intros H; inversion H|].
  specialize (IH (S i)).
  destruct (ModeController.evaluate proto w (S i) ms) as [[ms' log'] ds'].
  simpl in IH. fold (enabled proto m).
  assert (Hown : e ∈ EvUpdate (name m) :: u_log (run_update w m) -> mentions n e ->
                 name m = n).
  { rewrite elem_of_cons. intros [->|He] [Hm|Hm].
    - congruence.
    - discriminate Hm.
    - pose proof (run_update_log w m) as Hl. rewrite Forall_forall in Hl.
      specialize (Hl e He). subst e. destruct Hl.
    - pose proof (run_update_log w m) as Hl. rewrite Forall_forall in Hl.
      specialize (Hl e He). subst e. simpl in Hl. congruence. }
  assert (Hrest : e ∈ log' -> mentions n e ->
                  exists m0, m0 ∈ m :: ms /\ enabled proto m0 = true /\ name m0 = n).
  { intros He Hm. destruct (IH He Hm) as (m0 & Hin & Hrest).
    exists m0. split; [apply elem_of_cons; auto | exact Hrest]. }
  destruct (enabled proto m) eqn:En;
    [destruct (active (u_mode (run_update w m)))|]; simpl.
  - intros He Hm. exists m. split; [apply list_elem_of_here|]. auto.
  - rewrite app_comm_cons, elem_of_app. intros [He|He] Hm; [|auto].
    exists m. split; [apply list_elem_of_here|]. auto.
  - exact Hrest.
Qed.

(** In a well-formed registry a name designates one mode. *)
Lemma wf_name_index st n i j m :
  registry_wf st ->
  modes_map st !! n = Some i ->
  modes_list st !! j = Some m -> name m = n -> j = i.
Proof.
  intros Hwf Hn Hj Hname.
  destruct (wf_modes st Hwf) as (m0 & m1 & m2 & m3 & m4 & Hms & Hlit).
  destruct Hwf as [_ Hmap]. rewrite Hmap, constructor_modes_map in Hn.
  rewrite Hms in Hj. unfold literal in Hlit. simplify_eq/=.
  destruct j as [|[|[|[|[|j]]]]]; simpl in Hj; simplify_eq/=;
    repeat case_decide; simplify_eq/=; try reflexivity; congruence.
Qed.

Lemma wf_index_name st n i m :
  registry_wf st ->
  modes_map st !! n = Some i ->
  modes_list st !! i = Some m -> name m = n.
Proof.
  intros Hwf Hn Hi.
  destruct (wf_modes st Hwf) as (m0 & m1 & m2 & m3 & m4 & Hms & Hlit).
  destruct Hwf as [_ Hmap]. rewrite Hmap, constructor_modes_map in Hn.
  rewrite Hms in Hi. unfold literal in Hlit. simplify_eq/=.
  repeat case_decide; simplify_eq/=; congruence.
Qed.

Lemma filter_delete_length {A} (f : A -> bool) k (l : list A) :
  length (List.filter f (delete k l)) <= length (List.filter f l).
Proof.
  revert k. induction l as [|a l IH]; intros [|k]; simpl; try lia.
  - destruct (f a); simpl; lia.
  - specialize (IH k). destruct (f a); simpl; lia.
Qed.

Lemma pending_app i st ds :
  length (List.filter (fun d => Nat.eqb (d_mode d) i) (in_flight st ++ ds))
  = pending i st + length (List.filter (fun d => Nat.eqb (d_mode d) i) ds).
Proof. unfold pending. rewrite List.filter_app, length_app. reflexivity. Qed.

(** A tick leaves a switched-off mode alone. *)
Lemma tick_disabled w st n i :
  registry_wf st -> modes_map st !! n = Some i -> off_at i st ->
  (forall e, e ∈ (ModeController.update w st).2 -> ~ mentions n e) /\
  pending i (ModeController.update w st).1 <= pending i st.
Proof.
  intros Hwf Hn (m & Hi & Hoff).
  set (st1 := (ModeController.unpause_phase w st).1).
  assert (Hwf1 : registry_wf st1) by apply unpause_phase_wf, Hwf.
  assert (Hmap1 : modes_map st1 !! n = Some i).
  { destruct Hwf as [_ Hm], Hwf1 as [_ Hm1]. rewrite Hm1, <- Hm. exact Hn. }
  assert (Hproto : object_prototype st1 = object_prototype st).
  { unfold st1. rewrite unpause_phase_state. destruct (ctl_idle w); reflexivity. }
  assert (Hoff1 : forall j m1, modes_list st1 !! j = Some m1 -> name m1 = n ->
                               on m1 = false).
  { intros j m1 Hj Hname.
    assert (j = i) as -> by (eapply wf_name_index; eauto).
    unfold st1 in Hj. rewrite unpause_phase_state in Hj.
    destruct (ctl_idle w); simpl in Hj.
    - rewrite list_lookup_fmap, Hi in Hj. simpl in Hj. injection Hj as <-. exact Hoff.
    - congruence. }
  split.
  - intros e He Hm. rewrite update_unfold in He. fold st1 in He. simpl in He.
    apply elem_of_app in He as [He|He].
    + pose proof (unpause_phase_console w st) as Hc. rewrite Forall_forall in Hc.
      destruct (Hc e He) as [s ->]. destruct Hm as [Hm|Hm]; discriminate Hm.
    + destruct (evaluate_mentions _ _ n e _ _ He Hm) as (m1 & Hin & En & Hname).
      apply list_elem_of_lookup in Hin as [j Hj].
      unfold enabled in En. rewrite (Hoff1 j m1 Hj Hname) in En. discriminate En.
  - destruct (update_in_flight w st) as (ds & Hfl & Hds). fold st1 in Hds.
    unfold pending at 1. rewrite Hfl, pending_app.
    assert (Hnone : List.filter (fun d => Nat.eqb (d_mode d) i) ds = []).
    { clear Hfl. induction Hds as [|d ds Hd _ IH]; [reflexivity|]. simpl.
      destruct (Nat.eqb_spec (d_mode d) i) as [Heq|_]; [|exact IH].
      destruct Hd as (_ & m1 & Hm1 & En & _). rewrite Nat.sub_0_r, Heq in Hm1.
      unfold enabled in En.
      rewrite (Hoff1 i m1 Hm1) in En; [discriminate En|].
      eapply wf_index_name; eauto. }
    rewrite Hnone. simpl. lia.
Qed.

Lemma step_disabled st inp n i :
  registry_wf st -> modes_map st !! n = Some i -> off_at i st ->
  inp <> SetOn n true ->
  off_at i (step st inp).1 /\
  (forall e, e ∈ (step st inp).2 -> ~ mentions n e) /\
  pending i (step st inp).1 <= pending i st.
Proof.
  intros Hwf Hn Hoff Hinp.
  assert (Hkeep : (forall m m', on m = false -> changed_by inp m m' -> on m' = false) ->
                  off_at i (step st inp).1).
  { intros Hon. destruct Hoff as (m & Hi & Hm).
    destruct (step_lookup st inp i m Hi) as (m' & Hi' & Hch).
    exists m'. split; [exact Hi'|]. exact (Hon m m' Hm Hch). }
  assert (Hnil : forall e, e ∈ ([] : list event) -> ~ mentions n e)
    by (intros e He; inversion He).
  destruct inp as [w|k o|n' b|n'|n'|n'].
  - split; [|apply tick_disabled; assumption].
    apply Hkeep. intros m m' Hm Hch. inversion Hch; subst; try assumption.
    + unfold unpaused_by. destruct (ctl_idle w); assumption.
    + rewrite run_update_on. unfold unpaused_by. destruct (ctl_idle w); assumption.
  - split; [|split].
    + apply Hkeep. intros m m' Hm Hch. inversion Hch; subst; auto.
    + simpl. unfold execute_resume. repeat case_match; simpl; try exact Hnil.
      intros e He [Hm|Hm]; apply list_elem_of_singleton in He; subst e; discriminate Hm.
    + pose proof (step_in_flight st (Settle k o)) as [Hfl|Hfl];
        unfold pending; rewrite Hfl; [lia | apply filter_delete_length].
  - split; [|split; [exact Hnil | unfold pending;
                                  rewrite (step_in_flight st (SetOn n' b)); lia]].
    destruct b.
    + (* switching another mode on *)
      destruct Hoff as (m & Hi & Hm). unfold off_at. simpl.
      unfold ModeController.setOn.
      destruct (ModeController.get st n') as [r|] eqn:Hget; simpl; [|exists m; auto].
      destruct r as [j| |f|v]; simpl; try (exists m; split; [exact Hi | exact Hm]).
      destruct (modes_list st !! j) as [mj|] eqn:Hj; simpl; [|exists m; auto].
      exists m. split; [|exact Hm].
      rewrite list_lookup_insert_ne; [exact Hi|]. intros ->.
      unfold ModeController.get in Hget.
      destruct (modes_map st !! n') as [j|] eqn:Hn'; [|].
      * injection Hget as ->.
        assert (n' = n); [|subst n'; apply Hinp; reflexivity].
        rewrite <- (wf_index_name st n' i m Hwf Hn' Hi).
        apply (wf_index_name st n i m Hwf Hn Hi).
      * destruct (object_prototype_get n') as [r|] eqn:Hr.
        { injection Hget as ->. unfold object_prototype_get in Hr.
          repeat case_match; discriminate Hr. }
        repeat case_match; try discriminate Hget;
          apply fmap_Some in Hget as (? & _ & ?); discriminate.
    + apply Hkeep. intros m m' Hm Hch. inversion Hch; subst; auto.
  - split; [exact Hoff | split; [exact Hnil | reflexivity]].
  - split; [|split; [exact Hnil | unfold pending;
                                  rewrite (step_in_flight st (Pause n')); lia]].
    apply Hkeep. intros m m' Hm Hch. inversion Hch; subst; auto.
  - split; [exact Hoff | split; [exact Hnil | reflexivity]].
Qed.

Lemma run_disabled n i ins : forall st,
  registry_wf st -> modes_map st !! n = Some i -> off_at i st ->
  Forall (fun inp => inp <> SetOn n true) ins ->
  off_at i (run st ins).1 /\
  (forall e, e ∈ (run st ins).2 -> ~ mentions n e) /\
  pending i (run st ins).1 <= pending i st.
Proof.
  induction ins as [|inp ins IH]; intros st Hwf Hn Hoff Hins.
  { split; [exact Hoff|]. split; [intros e He; inversion He | reflexivity]. }
  apply Forall_cons in Hins as [Hinp Hins].
  destruct (step_disabled st inp n i Hwf Hn Hoff Hinp) as (Hoff1 & Hlog1 & Hp1).
  destruct (IH (step st inp).1) as (Hoff2 & Hlog2 & Hp2); auto using step_wf.
  { rewrite step_modes_map. exact Hn. }
  rewrite run_cons. simpl. split; [exact Hoff2|]. split; [|lia].
  intros e He. apply elem_of_app in He as [He|He]; auto.
Qed.

Lemma wf_lookup_registered st n i :
  registry_wf st -> modes_map st !! n = Some i -> is_Some (modes_list st !! i).
Proof.
  intros Hwf Hn.
  destruct (wf_modes st Hwf) as (m0 & m1 & m2 & m3 & m4 & Hms & _).
  destruct Hwf as [_ Hmap]. rewrite Hmap, constructor_modes_map in Hn.
  rewrite Hms. repeat case_decide; simplify_eq/=; eauto.
Qed.

(** C8: for a registered name, [setOn(name, false)] succeeds, and from
    then on, whatever the world looks like and whatever else happens
    (ticks, actions settling, pauses, switching other modes), as long as
    the mode is not switched on again its update is not called, it asks
    the world for nothing, no action of it is handed to [execute], and it
    stays off. *)
Theorem disabled_mode_never_triggers st n :
  reachable st -> n ∈ mode_names ->
  exists st1 i,
    ModeController.setOn st n false = Returned st1 /\
    modes_map st !! n = Some i /\
    forall ins,
      Forall (fun inp => inp <> SetOn n true) ins ->
      (EvUpdate n ∉ (run st1 ins).2) /\
      (EvQuery n ∉ (run st1 ins).2) /\
      pending i (run st1 ins).1 <= pending i st1 /\
      exists m, modes_list (run st1 ins).1 !! i = Some m /\
                name m = n /\ on m = false.
Proof.
  intros Hr Hin. pose proof (reachable_wf st Hr) as Hwf.
  apply (modes_map_registered st n Hwf) in Hin as [i Hn].
  destruct (wf_lookup_registered st n i Hwf Hn) as [m Hi].
  set (st1 := ModeController.with_modes (<[i := set_on false m]> (modes_list st)) st).
  assert (Hset : ModeController.setOn st n false = Returned st1).
  { unfold ModeController.setOn, ModeController.get. rewrite Hn. simpl.
    rewrite Hi. reflexivity. }
  assert (Hst1 : st1 = (step st (SetOn n false)).1) by (simpl; rewrite Hset; reflexivity).
  assert (Hwf1 : registry_wf st1) by (rewrite Hst1; apply step_wf, Hwf).
  assert (Hn1 : modes_map st1 !! n = Some i) by exact Hn.
  assert (Hoff : off_at i st1).
  { exists (set_on false m). split; [|reflexivity]. simpl.
    apply list_lookup_insert_eq. eapply lookup_lt_Some, Hi. }
  exists st1, i. split; [exact Hset|]. split; [exact Hn|].
  intros ins Hins.
  destruct (run_disabled n i ins st1 Hwf1 Hn1 Hoff Hins) as ((m' & Hi' & Hoff') & Hlog & Hp).
  split; [intros He; exact (Hlog _ He (or_introl eq_refl))|].
  split; [intros He; exact (Hlog _ He (or_intror eq_refl))|].
  split; [exact Hp|].
  exists m'. split; [exact Hi'|]. split; [|exact Hoff'].
  eapply wf_index_name; [apply run_wf, Hwf1 | | exact Hi'].
  assert (Hmap : forall ins' st0, modes_map (run st0 ins').1 = modes_map st0).
  { induction ins' as [|a ins' IH]; intros st0; [reflexivity|].
    rewrite run_cons. simpl. rewrite IH. apply step_modes_map. }
  rewrite Hmap. exact Hn1.
Qed.

Lemma disabled_mode_never_triggers_witness :
  exists st1 i,
    ModeController.setOn ModeController.constructor "hunting" false = Returned st1 /\
    modes_map ModeController.constructor !! "hunting" = Some i /\
    (EvUpdate "hunting" ∉ (run st1 [Tick (observe None (Some cow) None 0);
                                     Pause "self_defense";
                                     Tick (observe None (Some cow) None 300)]).2).
Proof.
  destruct (disabled_mode_never_triggers ModeController.constructor "hunting")
    as (st1 & i & Hset & Hn & Hrun).
  - exists []. reflexivity.
  - unfold mode_names. rewrite !elem_of_cons. auto.
  - exists st1, i. split; [exact Hset|]. split; [exact Hn|].
    apply Hrun. repeat constructor; discriminate.
Defined.

(** * Further properties of the file *)

(** ** The index built by the constructor *)

Lemma index_modes_lookup n ms : forall i mp,
  (ModeController.index_modes i ms mp !! n = mp !! n /\
   forall m, m ∈ ms -> name m <> n) \/
  (exists j m,
     ModeController.index_modes i ms mp !! n = Some (i + j) /\
     ms !! j = Some m /\ name m = n /\
     forall j' m', ms !! j' = Some m' -> name m' = n -> j' <= j).
Proof.
  induction ms as [|m ms IH]; intros i mp.
  { left. split; [reflexivity|]. intros m Hm. inversion Hm. }
  simpl. destruct (IH (S i) (<[name m := i]> mp))
    as [[Hl Hnone]|(j & m0 & Hl & Hj & Hn & Hmax)].
  - destruct (decide (name m = n)) as [Heq|Hne].
    + right. exists 0, m. rewrite Hl, Heq, lookup_insert_eq, Nat.add_0_r.
      split; [reflexivity|]. split; [reflexivity|]. split; [reflexivity|].
      intros [|j'] m' Hj' Hn'; [lia|]. simpl in Hj'.
      destruct (Hnone m'); [apply list_elem_of_lookup; eauto | exact Hn'].
    + left. rewrite Hl, lookup_insert_ne by exact Hne.
      split; [reflexivity|]. intros m' Hm'.
      apply elem_of_cons in Hm' as [->|Hm']; auto.
  - right. exists (S j), m0. rewrite Hl. split; [f_equal; lia|].
    split; [exact Hj|]. split; [exact Hn|].
    intros [|j'] m' Hj' Hn'; [lia|]. simpl in Hj'.
    specialize (Hmax j' m' Hj' Hn'). lia.
Qed.

(** X1: the own properties of [modes_map] are a faithful directory of
    the array they were set from, for an array in which no mode is named
    "__proto__" (an assignment under that name would go through the
    setter of [Object.prototype] and set no property).  [modes_map] has an
    own property of a name exactly when a mode carries that name; the own
    property leads to a mode of that name, the last one if several carry
    it; and when names are distinct every mode is found under its name at
    its own position.  Names that [modes_map] inherits are not own
    properties and are not counted here. *)
Theorem modes_map_round_trip (ms : list mode) (n : string) :
  "__proto__" ∉ (name <$> ms) ->
  (ModeController.index_modes 0 ms ∅ !! n = None <->
   forall m, m ∈ ms -> name m <> n) /\
  (forall i,
     ModeController.index_modes 0 ms ∅ !! n = Some i ->
     exists m, ms !! i = Some m /\ name m = n /\
               forall j m', ms !! j = Some m' -> name m' = n -> j <= i) /\
  (NoDup (name <$> ms) ->
   forall i m, ms !! i = Some m -> name m = n ->
               ModeController.index_modes 0 ms ∅ !! n = Some i).
Proof.
  intros _.
  destruct (index_modes_lookup n ms 0 ∅)
    as [[Hl Hnone]|(j & m0 & Hl & Hj & Hn & Hmax)].
  - rewrite lookup_empty in Hl. split; [|split].
    + split; auto.
    + intros i Hi. congruence.
    + intros _ i m Hi Hm. destruct (Hnone m); [|exact Hm].
      apply list_elem_of_lookup. eauto.
  - simpl in Hl. split; [|split].
    + split; [congruence|]. intros Hnone. destruct (Hnone m0); [|exact Hn].
      apply list_elem_of_lookup. eauto.
    + intros i Hi. assert (i = j) as -> by congruence. eauto.
    + intros Hnd i m Hi Hm. rewrite Hl. f_equal.
      apply (NoDup_lookup (name <$> ms) j i n Hnd);
        rewrite list_lookup_fmap; [rewrite Hj | rewrite Hi]; simpl; congruence.
Qed.

Lemma modes_map_round_trip_witness :
  ("__proto__" ∉ (name <$> modes)) /\
  ModeController.index_modes 0 modes ∅ !! "torch_placing" = Some 3.
Proof.
  assert (Hproto : "__proto__" ∉ (name <$> modes)).
  { change (name <$> modes) with mode_names. unfold mode_names.
    rewrite !elem_of_cons, elem_of_nil. intuition discriminate. }
  split; [exact Hproto|].
  refine (proj2 (proj2 (modes_map_round_trip modes "torch_placing" Hproto)) _ 3
                (Mode "torch_placing"
                      "Automatically place torches when idle and there are no torches nearby."
                      true false None torch_placing_update NoState)
                eq_refl eq_refl).
  vm_compute. repeat constructor; rewrite ?elem_of_cons, ?elem_of_nil;
    intuition discriminate.
Defined.

(** ** setOn and isOn *)

(** A write through a mode or through an inherited function leaves
    every name resolving as before. *)
Lemma get_after_write wr_mode wr_props r st n :
  r <> RObjectPrototype ->
  ModeController.get (ModeController.write wr_mode wr_props r st) n
  = ModeController.get st n.
Proof.
  intros Hr. unfold ModeController.get. rewrite write_modes_map.
  destruct r as [i| |f|v]; [|contradiction| |]; simpl; try reflexivity.
  destruct (modes_list st !! i); reflexivity.
Qed.

(** A name resolves to a mode only through an own property of
    [modes_map]. *)
Lemma get_mode st n i :
  ModeController.get st n = Some (RMode i) -> modes_map st !! n = Some i.
Proof.
  unfold ModeController.get. destruct (modes_map st !! n) as [j|]; [congruence|].
  destruct (object_prototype_get n) as [r|] eqn:Hr.
  { intros H. injection H as ->. unfold object_prototype_get in Hr.
    repeat case_match; discriminate Hr. }
  intros H. repeat case_match; try discriminate H;
    apply fmap_Some in H as (? & _ & ?); discriminate.
Qed.

(** A name that resolves to an object resolves to it whatever has been
    written on [Object.prototype]: own properties of [modes_map] and the
    built-in properties of [Object.prototype] come first. *)
Lemma get_object st st' n r :
  ModeController.get st n = Some r -> (forall v, r <> RBoolean v) ->
  modes_map st' = modes_map st ->
  ModeController.get st' n = Some r.
Proof.
  unfold ModeController.get. intros H Hr ->.
  destruct (modes_map st !! n) as [j|]; [exact H|].
  destruct (object_prototype_get n) as [r0|]; [exact H|].
  repeat case_match; try discriminate H;
    apply fmap_Some in H as (v & _ & ->); destruct (Hr v eq_refl).
Qed.

Lemma setOn_returned st n b st1 :
  ModeController.setOn st n b = Returned st1 ->
  exists r, ModeController.get st n = Some r /\ (forall v, r <> RBoolean v) /\
            st1 = ModeController.write
                    (set_on b) (fun p => Props (Some b) (p_paused p)) r st.
Proof.
  unfold ModeController.setOn. intros H.
  destruct (ModeController.get st n) as [r|]; [|discriminate H].
  exists r. destruct r as [i| |f|v]; try discriminate H; cbv beta iota in H;
    (split; [reflexivity|]; split; [discriminate | congruence]).
Qed.

Lemma pause_returned st n st1 :
  ModeController.pause st n = Returned st1 ->
  exists r, ModeController.get st n = Some r /\ (forall v, r <> RBoolean v) /\
            st1 = ModeController.write
                    (set_paused true) (fun p => Props (p_on p) (Some true)) r st.
Proof.
  unfold ModeController.pause. intros H.
  destruct (ModeController.get st n) as [r|]; [|discriminate H].
  exists r. destruct r as [i| |f|v]; try discriminate H; cbv beta iota in H;
    (split; [reflexivity|]; split; [discriminate | congruence]).
Qed.

Lemma setOn_object st n b r :
  ModeController.get st n = Some r -> (forall v, r <> RBoolean v) ->
  ModeController.setOn st n b
  = Returned (ModeController.write
                (set_on b) (fun p => Props (Some b) (p_paused p)) r st).
Proof.
  unfold ModeController.setOn. intros -> Hr.
  destruct r as [i| |f|v]; try reflexivity. destruct (Hr v eq_refl).
Qed.

Lemma pause_object st n r :
  ModeController.get st n = Some r -> (forall v, r <> RBoolean v) ->
  ModeController.pause st n
  = Returned (ModeController.write
                (set_paused true) (fun p => Props (p_on p) (Some true)) r st).
Proof.
  unfold ModeController.pause. intros -> Hr.
  destruct r as [i| |f|v]; try reflexivity. destruct (Hr v eq_refl).
Qed.

(** X3: what [setOn] writes, [isOn] reads back.  In a reachable state
    [setOn] returns on each of the five mode names; whenever
    [setOn(name, b)] returns, on a mode name or on an inherited one,
    [isOn(name)] then returns [b]; and switching a mode changes the
    answer of [isOn] for no other name. *)
Theorem setOn_then_isOn (st : state) (n : string) (b : bool) :
  reachable st ->
  (n ∈ mode_names -> exists st1, ModeController.setOn st n b = Returned st1) /\
  (forall st1,
     ModeController.setOn st n b = Returned st1 ->
     ModeController.isOn st1 n = Returned (Some b) /\
     (n ∈ mode_names ->
      forall n', n' <> n -> ModeController.isOn st1 n' = ModeController.isOn st n')).
Proof.
  intros Hr. pose proof (reachable_wf st Hr) as Hwf. split.
  { intros Hin. apply (modes_map_registered st n Hwf) in Hin as [i Hn].
    unfold ModeController.setOn, ModeController.get. rewrite Hn. eauto. }
  intros st1 Hset. unfold ModeController.setOn in Hset.
  destruct (ModeController.get st n) as [r|] eqn:Hget; [|discriminate Hset].
  destruct r as [i| |f|v]; try discriminate Hset; cbv beta iota in Hset;
    match type of Hset with
    | Returned ?x = _ => assert (st1 = x) as -> by congruence
    end; clear Hset.
  - (* a mode *)
    pose proof (get_mode st n i Hget) as Hn.
    destruct (wf_lookup_registered st n i Hwf Hn) as [m Hi].
    unfold ModeController.isOn. split.
    + rewrite get_after_write, Hget by discriminate. simpl. rewrite Hi. simpl.
      rewrite list_lookup_insert_eq by (eapply lookup_lt_Some; eauto). reflexivity.
    + intros _ n' Hne. rewrite get_after_write by discriminate.
      simpl. rewrite Hi. simpl.
      destruct (ModeController.get st n') as [[j| |f|v]|] eqn:Hget'; try reflexivity.
      rewrite list_lookup_insert_ne; [reflexivity|]. intros <-.
      apply get_mode in Hget'. apply Hne.
      rewrite <- (wf_index_name st n' i m Hwf Hget' Hi).
      apply (wf_index_name st n i m Hwf Hn Hi).
  - (* Object.prototype *)
    split.
    + unfold ModeController.isOn.
      rewrite (get_object st _ n RObjectPrototype Hget)
        by (try discriminate; apply write_modes_map).
      reflexivity.
    + intros Hin. apply (modes_map_registered st n Hwf) in Hin as [i Hn].
      unfold ModeController.get in Hget. rewrite Hn in Hget. discriminate Hget.
  - (* an inherited function *)
    split.
    + unfold ModeController.isOn. rewrite get_after_write, Hget by discriminate.
      unfold ModeController.function_props. simpl.
      rewrite lookup_insert_eq. reflexivity.
    + intros Hin. apply (modes_map_registered st n Hwf) in Hin as [i Hn].
      unfold ModeController.get in Hget. rewrite Hn in Hget. discriminate Hget.
Qed.

Lemma setOn_then_isOn_witness :
  exists st1,
    ModeController.setOn ModeController.constructor "hunting" false = Returned st1 /\
    ModeController.isOn st1 "hunting" = Returned (Some false) /\
    ModeController.isOn st1 "self_defense"
    = ModeController.isOn ModeController.constructor "self_defense".
Proof.
  assert (Hr : reachable ModeController.constructor) by (exists []; reflexivity).
  assert (Hin : "hunting" ∈ mode_names)
    by (unfold mode_names; rewrite !elem_of_cons; auto).
  destruct (setOn_then_isOn ModeController.constructor "hunting" false Hr)
    as [Hret Hread].
  destruct (Hret Hin) as [st1 Hset]. exists st1.
  destruct (Hread st1 Hset) as [Hget Hframe].
  split; [exact Hset|]. split; [exact Hget|].
  apply Hframe; [exact Hin | discriminate].
Defined.

(** ** The registry over a run, and a second controller *)

(** X4: nothing that can happen at run time rearranges the registry.  In
    every reachable state the modes are the five literals in their
    original order, with their names, descriptions and update functions,
    the dwell time of item_collecting is still 2, the own properties of
    [modes_map] are the ones set at construction, and each of the five
    mode names still resolves to its mode.  Names that [modes_map]
    inherits are not covered: what they resolve to can change. *)
Theorem registry_is_static (st : state) :
  reachable st ->
  name <$> modes_list st = mode_names /\
  description <$> modes_list st = description <$> modes /\
  update <$> modes_list st = update <$> modes /\
  (exists prev noticed,
     tstate <$> modes_list st !! 2 = Some (ItemState 2 prev noticed)) /\
  (forall n, modes_map st !! n = modes_map ModeController.constructor !! n) /\
  (forall n, n ∈ mode_names ->
             ModeController.get st n = ModeController.get ModeController.constructor n).
Proof.
  intros Hr. pose proof (reachable_wf st Hr) as Hwf.
  assert (Hget : forall n, n ∈ mode_names ->
             ModeController.get st n = ModeController.get ModeController.constructor n).
  { intros n Hin. pose proof (proj2 Hwf) as Hmap.
    apply (modes_map_registered st n Hwf) in Hin as [i Hn].
    unfold ModeController.get. rewrite <- Hmap, Hn. reflexivity. }
  destruct (wf_modes st Hwf) as (m0 & m1 & m2 & m3 & m4 & Hms & Hlit).
  destruct Hwf as [_ Hmap]. split; [|split; [|split; [|split; [|split]]]];
    try exact Hget; rewrite ?Hms, ?Hmap; unfold literal in Hlit; simplify_eq/=;
    try (repeat f_equal; assumption); try reflexivity.
  destruct (tstate m2) as [|wait prev noticed|]; simplify_eq/=. eauto.
Qed.

Lemma registry_is_static_witness :
  let st := (run ModeController.constructor
                 [Tick quiet; Pause "__proto__"; SetOn "idle_staring" false;
                  Tick busy]).1 in
  name <$> modes_list st = mode_names /\
  ModeController.get st "hunting" = Some (RMode 1).
Proof.
  intros st.
  assert (Hr : reachable st) by (eexists; reflexivity).
  split.
  - exact (proj1 (registry_is_static st Hr)).
  - refine (proj2 (proj2 (proj2 (proj2 (proj2 (registry_is_static st Hr)))))
              "hunting" _).
    unfold mode_names. rewrite !elem_of_cons. auto.
Defined.

Lemma index_modes_names ms : forall ms' i mp,
  name <$> ms = name <$> ms' ->
  ModeController.index_modes i ms mp = ModeController.index_modes i ms' mp.
Proof.
  induction ms as [|m ms IH]; intros [|m' ms'] i mp H; try discriminate H;
    [reflexivity|].
  rewrite !fmap_cons in H. injection H as Hn Hrest. simpl. rewrite Hn.
  apply IH, Hrest.
Qed.

(** X5: constructing a controller again on a registry that has been in
    use resets nothing.  The module-level array is shared, so the new
    controller finds every mode with the flags and trigger state it had,
    and its [modes_map] is the one the first controller built: the state
    is the same and every operation behaves as before. *)
Theorem initModes_resets_nothing (st : state) :
  reachable st -> initModes st = st.
Proof.
  intros Hr. destruct (reachable_wf st Hr) as [Hlit Hmap].
  unfold initModes, ModeController.construct.
  replace (ModeController.index_modes 0 (modes_list st) ∅) with (modes_map st);
    [destruct st; reflexivity|].
  rewrite Hmap. apply index_modes_names.
  change name with ((fun l : string * string * update_fn * option (option Z) =>
                       l.1.1.1) ∘ literal).
  rewrite !list_fmap_compose, Hlit. reflexivity.
Qed.

Lemma initModes_resets_nothing_witness :
  let st := (run ModeController.constructor
                 [SetOn "hunting" false; Tick (observe (Some zombie) None None 0)]).1 in
  initModes st = st.
Proof. intros st. apply initModes_resets_nothing. eexists. reflexivity. Defined.

(** ** The listing of getStr *)

Lemma fold_left_append_ext {A} (f : A -> string) (ms1 ms2 : list A) : forall s,
  f <$> ms1 = f <$> ms2 ->
  fold_left (fun res m => res +:+ f m) ms1 s
  = fold_left (fun res m => res +:+ f m) ms2 s.
Proof.
  revert ms2. induction ms1 as [|m ms1 IH]; intros [|m' ms2] s H;
    try discriminate H; [reflexivity|].
  rewrite !fmap_cons in H. injection H as Hl Hrest. simpl. rewrite Hl.
  apply IH, Hrest.
Qed.

Lemma Forall2_fmap_eq {A B} (f : A -> B) (l l' : list A) :
  Forall2 (fun a b => f b = f a) l l' -> f <$> l' = f <$> l.
Proof. induction 1; [reflexivity|]. rewrite !fmap_cons. congruence. Qed.

(** X6: only [setOn] changes what [getStr] shows.  Through a tick, the
    settling of an action (whatever its outcome), [pause], [isOn] and
    [exists], every mode keeps its on flag and the listing is the same
    string. *)
Theorem listing_changes_only_by_setOn (st : state) (i : input) :
  (forall n b, i <> SetOn n b) ->
  on <$> modes_list (step st i).1 = on <$> modes_list st /\
  ModeController.getStr (step st i).1 = ModeController.getStr st.
Proof.
  intros Hi.
  assert (H : Forall2 (fun m m' => on m' = on m /\
                                   ModeController.listing_line m'
                                   = ModeController.listing_line m)
                      (modes_list st) (modes_list (step st i).1)).
  { eapply Forall2_impl; [apply step_pointwise|].
    intros m m' Hch.
    assert (Hsame : on m' = on m /\ name m' = name m /\ description m' = description m).
    { destruct Hch as [i m|w m|w m|k o m|n b m|n m]; auto.
      - unfold unpaused_by. destruct (ctl_idle w); auto.
      - pose proof (run_update_literal w (unpaused_by w m)) as Hl.
        unfold literal in Hl. injection Hl as Hn Hd _ _.
        rewrite run_update_on, Hn, Hd.
        unfold unpaused_by. destruct (ctl_idle w); auto.
      - destruct (Hi n b eq_refl). }
    destruct Hsame as (Ho & Hn & Hd). split; [exact Ho|].
    unfold ModeController.listing_line. rewrite Ho, Hn, Hd. reflexivity. }
  split.
  - apply Forall2_fmap_eq. eapply Forall2_impl; [exact H|]. intros m m' [Ho _]. exact Ho.
  - unfold ModeController.getStr. apply fold_left_append_ext, Forall2_fmap_eq.
    eapply Forall2_impl; [exact H|]. intros m m' [_ Hl]. exact Hl.
Qed.

Lemma listing_changes_only_by_setOn_witness :
  let st := (run ModeController.constructor [Tick (observe (Some zombie) None None 0)]).1 in
  ModeController.getStr (step st (Settle 0 (Outcome Failed "Error: no path"))).1
  = ModeController.getStr st.
Proof.
  intros st.
  apply (listing_changes_only_by_setOn st (Settle 0 (Outcome Failed "Error: no path"))).
  discriminate.
Defined.

(** X7: the listing can be read back.  Two reachable states whose
    listings are the same string have every mode switched the same way. *)
Theorem listing_shows_on_flags (st1 st2 : state) :
  reachable st1 -> reachable st2 ->
  ModeController.getStr st1 = ModeController.getStr st2 ->
  on <$> modes_list st1 = on <$> modes_list st2.
Proof.
  intros Hr1 Hr2.
  destruct (wf_modes st1 (reachable_wf st1 Hr1)) as (a0 & a1 & a2 & a3 & a4 & Ha & Hla).
  destruct (wf_modes st2 (reachable_wf st2 Hr2)) as (b0 & b1 & b2 & b3 & b4 & Hb & Hlb).
  unfold ModeController.getStr. rewrite Ha, Hb.
  unfold literal in Hla, Hlb. simplify_eq/=.
  unfold ModeController.listing_line.
  repeat match goal with H : name _ = _ |- _ => rewrite H; clear H end.
  repeat match goal with H : description _ = _ |- _ => rewrite H; clear H end.
  destruct (on a0), (on b0); cbn; intros H; try discriminate H;
    destruct (on a1), (on b1); cbn in H; try discriminate H;
    destruct (on a2), (on b2); cbn in H; try discriminate H;
    destruct (on a3), (on b3); cbn in H; try discriminate H;
    destruct (on a4), (on b4); cbn in H; try discriminate H; reflexivity.
Qed.

Lemma listing_shows_on_flags_witness :
  on <$> modes_list ModeController.constructor
  = on <$> modes_list (run ModeController.constructor
                           [Tick (observe (Some zombie) None None 0);
                            Pause "item_collecting"]).1.
Proof.
  apply listing_shows_on_flags.
  - exists []. reflexivity.
  - eexists. reflexivity.
  - vm_compute. reflexivity.
Defined.

(** ** What a tick starts *)

Lemma started_by_spec w st :
  let st1 := (ModeController.unpause_phase w st).1 in
  started_by w st
  = (ModeController.evaluate (object_prototype st1) w 0 (modes_list st1)).2 /\
  in_flight (ModeController.update w st).1 = in_flight st ++ started_by w st.
Proof.
  intros st1. unfold started_by. rewrite update_unfold. fold st1. cbn [fst in_flight].
  assert (Hfl : in_flight st1 = in_flight st).
  { subst st1. rewrite unpause_phase_state. destruct (ctl_idle w); reflexivity. }
  rewrite Hfl, drop_app_length. split; reflexivity.
Qed.

Lemma last_cons_some {A} (x y : A) l : last l = Some y -> last (x :: l) = Some y.
Proof. destruct l; [discriminate|]. intros H. exact H. Qed.

Lemma evaluate_one_dispatch proto w ms : forall i,
  length (ModeController.evaluate proto w i ms).2 <= 1 /\
  forall d, d ∈ (ModeController.evaluate proto w i ms).2 ->
            i <= d_mode d /\
            exists m, ms !! (d_mode d - i) = Some m /\
                      last (updates_of (ModeController.evaluate proto w i ms).1.2)
                      = Some (name m).
Proof.
  induction ms as [|m ms IH]; intros i.
  { simpl. split; [lia|]. intros d Hd. inversion Hd. }
  simpl. destruct (IH (S i)) as [Hlen Hlast].
  destruct (ModeController.evaluate proto w (S i) ms) as [[ms' log'] ds'].
  simpl in Hlen, Hlast.
  assert (Hshift : forall d, d ∈ ds' -> forall pre,
            updates_of pre = [] \/ (exists x, updates_of pre = [x]) ->
            i <= d_mode d /\
            exists m0, (m :: ms) !! (d_mode d - i) = Some m0 /\
                       last (updates_of (pre ++ log')) = Some (name m0)).
  { intros d Hd pre Hpre. destruct (Hlast d Hd) as (Hle & m0 & Hm0 & Hl).
    split; [lia|]. exists m0.
    replace (d_mode d - i) with (S (d_mode d - S i)) by lia.
    split; [exact Hm0|]. rewrite updates_of_app.
    destruct Hpre as [->|[x ->]]; [exact Hl | apply last_cons_some, Hl]. }
  destruct (on m && negb (is_paused proto m)).
  - destruct (active (u_mode (run_update w m))) eqn:Ha; simpl.
    + split; [destruct (u_dispatch (run_update w m)) as [[f t]|]; simpl; lia|].
      intros d Hd. destruct (u_dispatch (run_update w m)) as [[f t]|];
        [|inversion Hd].
      apply list_elem_of_singleton in Hd as ->. simpl.
      split; [lia|]. exists m. rewrite Nat.sub_diag, updates_of_run_update.
      split; reflexivity.
    + destruct (u_dispatch (run_update w m)) as [[f t]|] eqn:Hd.
      { apply run_update_dispatch_active in Hd. congruence. }
      simpl. split; [exact Hlen|].
      intros d Hin.
      apply (Hshift d Hin (EvUpdate (name m) :: u_log (run_update w m))).
      right. exists (name m). simpl.
      rewrite updates_of_run_update. reflexivity.
  - simpl. split; [exact Hlen|]. intros d Hin.
    apply (Hshift d Hin []). left. reflexivity.
Qed.

(** X8: a tick hands at most one action to [execute].  The pending list
    after a tick is the old one followed by what the tick started; if it
    started an action, the mode that did is active when the tick ends and
    is the last mode whose update was called. *)
Theorem tick_starts_at_most_one_action (w : obs) (st : state) :
  length (started_by w st) <= 1 /\
  in_flight (ModeController.update w st).1 = in_flight st ++ started_by w st /\
  forall d, d ∈ started_by w st ->
    exists m', modes_list (ModeController.update w st).1 !! d_mode d = Some m' /\
               active m' = true /\
               last (updates_of (ModeController.update w st).2) = Some (name m').
Proof.
  destruct (started_by_spec w st) as [Hst Hfl].
  set (st1 := (ModeController.unpause_phase w st).1) in *.
  destruct (evaluate_one_dispatch (object_prototype st1) w (modes_list st1) 0)
    as [Hlen Hlast].
  split; [rewrite Hst; exact Hlen|]. split; [exact Hfl|].
  intros d Hd. rewrite Hst in Hd.
  destruct (Hlast d Hd) as (_ & m & Hm & Hl).
  pose proof (evaluate_dispatches (object_prototype st1) w (modes_list st1) 0) as Hds.
  rewrite Forall_forall in Hds. destruct (Hds d Hd) as (_ & m0 & Hm0 & _ & Hdis & Hm').
  rewrite Nat.sub_0_r in *. assert (m0 = m) as -> by congruence.
  exists (u_mode (run_update w m)).
  rewrite update_unfold. fold st1. cbn [fst snd modes_list].
  split; [exact Hm'|]. split; [eapply run_update_dispatch_active, Hdis|].
  rewrite updates_of_app, (proj1 (unpause_phase_log w st)). simpl.
  pose proof (run_update_literal w m) as Hlit. unfold literal in Hlit.
  injection Hlit as Hn _ _ _. rewrite Hn. exact Hl.
Qed.

Lemma tick_starts_at_most_one_action_witness :
  let w := observe (Some zombie) (Some cow) (Some apple) 0 in
  exists m', modes_list (ModeController.update w ModeController.constructor).1 !! 0
             = Some m' /\
             active m' = true /\
             last (updates_of (ModeController.update w ModeController.constructor).2)
             = Some (name m').
Proof.
  intros w.
  apply (proj2 (proj2 (tick_starts_at_most_one_action w ModeController.constructor))
               (Dispatch 0 (DefendSelf 8) (-1))).
  vm_compute. constructor.
Defined.

(** X9: an agent that is not idle is interrupted by self_defense only.
    When the idle predicate answers false to hunting, item_collecting and
    torch_placing, whatever else the world shows, the only action a tick
    can start is the self-defence skill, started by a mode whose update is
    the one of self_defense. *)
Theorem busy_agent_only_defends (w : obs) (st : state) :
  hu_idle w = false -> ic_idle w = false -> tp_idle w = false ->
  forall d, d ∈ started_by w st ->
    d_func d = DefendSelf 8 /\ d_timeout d = (-1)%Z /\
    exists m, modes_list (ModeController.unpause_phase w st).1 !! d_mode d = Some m /\
              update m = self_defense_update.
Proof.
  intros Hh Hi Ht d Hd. rewrite (proj1 (started_by_spec w st)) in Hd.
  set (st1 := (ModeController.unpause_phase w st).1) in *.
  pose proof (evaluate_dispatches (object_prototype st1) w (modes_list st1) 0) as Hds.
  rewrite Forall_forall in Hds. destruct (Hds d Hd) as (_ & m & Hm & _ & Hdis & _).
  rewrite Nat.sub_0_r in Hm.
  assert (H : (d_func d, d_timeout d) = (DefendSelf 8, (-1)%Z) /\
              update m = self_defense_update).
  { clear -Hdis Hh Hi Ht. unfold run_update in Hdis.
    destruct (update m) eqn:Hu;
      unfold run_self_defense, run_hunting, run_item_collecting, run_torch_placing,
        run_idle_staring, execute, finish in Hdis;
      rewrite ?Hh, ?Hi, ?Ht in Hdis; repeat case_match; simplify_eq/=.
    split; [congruence | reflexivity]. }
  destruct H as [Heq Hu]. injection Heq as -> ->. eauto.
Qed.

Lemma busy_agent_only_defends_witness :
  let w := Obs false (Some zombie) true false (Some cow) true false (Some apple) true
               0 5000 false false ["torch"] (0, 0, 0)%Q false None false
               0 0 0 0 0 0 0 0 in
  d_func (Dispatch 0 (DefendSelf 8) (-1)) = DefendSelf 8 /\
  d_timeout (Dispatch 0 (DefendSelf 8) (-1)) = (-1)%Z /\
  exists m, modes_list (ModeController.unpause_phase w ModeController.constructor).1 !! 0
            = Some m /\ update m = self_defense_update.
Proof.
  intros w.
  apply (busy_agent_only_defends w ModeController.constructor eq_refl eq_refl eq_refl).
  vm_compute. constructor.
Defined.

(** ** A mode in action holds the floor *)

Lemma evaluate_blocked proto w : forall j ms i m,
  ms !! j = Some m ->
  enabled proto m = true -> active m = true -> guarded (update m) = true ->
  drop j (ModeController.evaluate proto w i ms).1.1 = drop j ms /\
  Forall (fun d => d_mode d < i + j) (ModeController.evaluate proto w i ms).2 /\
  updates_of (ModeController.evaluate proto w i ms).1.2
    `prefix_of` name <$> List.filter (enabled proto) (take (S j) ms).
Proof.
  induction j as [|j IH]; intros [|m0 ms] i m Hm En Ha Hg; try discriminate Hm.
  - injection Hm as ->. simpl. fold (enabled proto m). rewrite En.
    rewrite (guarded_update_returns w m Ha Hg). simpl. rewrite Ha. simpl.
    rewrite ?En. split; [reflexivity|]. split; [constructor | reflexivity].
  - simpl in Hm. destruct (IH ms (S i) m Hm En Ha Hg) as (Hdrop & Hds & Hup).
    simpl. destruct (ModeController.evaluate proto w (S i) ms) as [[ms' log'] ds'].
    simpl in Hdrop, Hds, Hup. fold (enabled proto m0).
    assert (Hstarted :
      Forall (fun d => d_mode d < i + S j)
             match u_dispatch (run_update w m0) with
             | Some (func, timeout) => [Dispatch i func timeout]
             | None => []
             end).
    { destruct (u_dispatch (run_update w m0)) as [[f t]|]; repeat constructor.
      simpl. lia. }
    assert (Hds' : Forall (fun d => d_mode d < i + S j) ds').
    { eapply Forall_impl; [exact Hds|]. simpl. intros d Hd. lia. }
    destruct (enabled proto m0) eqn:En0;
      [destruct (active (u_mode (run_update w m0))) eqn:Ha0|]; simpl.
    + split; [reflexivity|]. split; [exact Hstarted|].
      rewrite updates_of_run_update. apply prefix_cons, prefix_nil.
    + split; [exact Hdrop|]. split; [apply Forall_app; auto|].
      rewrite updates_of_app, updates_of_run_update. simpl.
      apply prefix_cons, Hup.
    + split; [exact Hdrop|]. split; [exact Hds' | exact Hup].
Qed.

(** X10: while the action of self_defense, item_collecting or
    torch_placing is in flight and the mode is on and not (or no longer)
    paused, a tick leaves every mode from that one on exactly as the
    unpausing loop left it, starts no action of that mode or of a
    lower-priority one, and calls no update past that mode's. *)
Theorem active_mode_holds_the_floor (w : obs) (st : state) (j : nat) (m : mode) :
  modes_list st !! j = Some m ->
  on m = true -> active m = true -> guarded (update m) = true ->
  ctl_idle w = true \/ is_paused (object_prototype st) m = false ->
  let st1 := (ModeController.unpause_phase w st).1 in
  drop j (modes_list (ModeController.update w st).1) = drop j (modes_list st1) /\
  (forall d, d ∈ started_by w st -> d_mode d < j) /\
  updates_of (ModeController.update w st).2
    `prefix_of` name <$> List.filter (enabled (object_prototype st1))
                                     (take (S j) (modes_list st1)).
Proof.
  intros Hj Hon Ha Hg Hp st1.
  assert (Hst1 : modes_list st1 !! j = Some (unpaused_by w m) /\
                 object_prototype st1 = object_prototype st).
  { subst st1. rewrite unpause_phase_state. unfold unpaused_by.
    destruct (ctl_idle w); simpl; [|auto].
    rewrite list_lookup_fmap, Hj. auto. }
  destruct Hst1 as [Hj1 Hproto].
  assert (En : enabled (object_prototype st1) (unpaused_by w m) = true).
  { unfold enabled, unpaused_by. rewrite Hproto.
    destruct (ctl_idle w); simpl; [rewrite Hon; reflexivity|].
    destruct Hp as [Hp|Hp]; [discriminate Hp|]. rewrite Hon, Hp. reflexivity. }
  destruct (evaluate_blocked (object_prototype st1) w j (modes_list st1) 0
              (unpaused_by w m) Hj1 En) as (Hdrop & Hds & Hup).
  { unfold unpaused_by. destruct (ctl_idle w); exact Ha. }
  { unfold unpaused_by. destruct (ctl_idle w); exact Hg. }
  rewrite (proj1 (started_by_spec w st)). fold st1.
  rewrite update_unfold. fold st1. cbn [fst snd modes_list].
  split; [exact Hdrop|]. split.
  - intros d Hd. rewrite Forall_forall in Hds. exact (Hds d Hd).
  - rewrite updates_of_app, (proj1 (unpause_phase_log w st)). exact Hup.
Qed.

Lemma active_mode_holds_the_floor_witness :
  let w := observe (Some zombie) (Some cow) (Some apple) 0 in
  let st := (ModeController.update w ModeController.constructor).1 in
  drop 0 (modes_list (ModeController.update w st).1)
  = drop 0 (modes_list (ModeController.unpause_phase w st).1).
Proof.
  intros w st.
  refine (proj1 (active_mode_holds_the_floor w st 0 _ eq_refl eq_refl eq_refl
                                             eq_refl (or_introl eq_refl))).
Defined.

(** ** A paused mode *)

Lemma tick_not_enabled w st n i m :
  registry_wf st -> modes_map st !! n = Some i ->
  modes_list (ModeController.unpause_phase w st).1 !! i = Some m ->
  enabled (object_prototype st) m = false ->
  (forall e, e ∈ (ModeController.update w st).2 -> ~ mentions n e) /\
  pending i (ModeController.update w st).1 <= pending i st.
Proof.
  intros Hwf Hn Hi Hoff.
  set (st1 := (ModeController.unpause_phase w st).1) in *.
  assert (Hwf1 : registry_wf st1) by apply unpause_phase_wf, Hwf.
  assert (Hmap1 : modes_map st1 !! n = Some i).
  { destruct Hwf as [_ Hm], Hwf1 as [_ Hm1]. rewrite Hm1, <- Hm. exact Hn. }
  assert (Hproto : object_prototype st1 = object_prototype st).
  { unfold st1. rewrite unpause_phase_state. destruct (ctl_idle w); reflexivity. }
  assert (Hoff1 : forall j m1, modes_list st1 !! j = Some m1 -> name m1 = n ->
                               enabled (object_prototype st1) m1 = false).
  { intros j m1 Hj Hname.
    assert (j = i) as -> by (eapply wf_name_index; eauto).
    rewrite Hproto. congruence. }
  split.
  - intros e He Hm. rewrite update_unfold in He. fold st1 in He. simpl in He.
    apply elem_of_app in He as [He|He].
    + pose proof (unpause_phase_console w st) as Hc. rewrite Forall_forall in Hc.
      destruct (Hc e He) as [s ->]. destruct Hm as [Hm|Hm]; discriminate Hm.
    + destruct (evaluate_mentions _ _ n e _ _ He Hm) as (m1 & Hin & En & Hname).
      apply list_elem_of_lookup in Hin as [j Hj].
      rewrite (Hoff1 j m1 Hj Hname) in En. discriminate En.
  - destruct (update_in_flight w st) as (ds & Hfl & Hds). fold st1 in Hds.
    unfold pending at 1. rewrite Hfl, pending_app.
    assert (Hnone : List.filter (fun d => Nat.eqb (d_mode d) i) ds = []).
    { clear Hfl. induction Hds as [|d ds Hd _ IH]; [reflexivity|]. simpl.
      destruct (Nat.eqb_spec (d_mode d) i) as [Heq|_]; [|exact IH].
      destruct Hd as (_ & m1 & Hm1 & En & _). rewrite Nat.sub_0_r, Heq in Hm1.
      rewrite <- Hproto, (Hoff1 i m1 Hm1) in En; [discriminate En|].
      eapply wf_index_name; eauto. }
    rewrite Hnone. simpl. lia.
Qed.

Lemma step_keeps_paused st inp i :
  paused_at i st ->
  (forall w, inp = Tick w -> ctl_idle w = false) ->
  paused_at i (step st inp).1.
Proof.
  intros (m & Hi & Hp) Hbusy.
  destruct (step_lookup st inp i m Hi) as (m' & Hm' & Hch).
  exists m'. split; [exact Hm'|].
  apply (is_paused_stable (object_prototype st) _ m); auto using step_prototype_paused.
  destruct Hch; simpl; auto.
  - unfold unpaused_by. rewrite (Hbusy w eq_refl). auto.
  - rewrite run_update_paused. unfold unpaused_by. rewrite (Hbusy w eq_refl). auto.
Qed.

Lemma step_while_paused st inp n i :
  registry_wf st -> modes_map st !! n = Some i -> paused_at i st ->
  (forall w, inp = Tick w -> ctl_idle w = false) ->
  (forall e, e ∈ (step st inp).2 -> ~ mentions n e) /\
  pending i (step st inp).1 <= pending i st.
Proof.
  intros Hwf Hn (m & Hi & Hp) Hbusy.
  assert (Hnil : forall e, e ∈ ([] : list event) -> ~ mentions n e)
    by (intros e He; inversion He).
  destruct inp as [w|k o|n' b|n'|n'|n'].
  - apply (tick_not_enabled w st n i m Hwf Hn).
    + rewrite unpause_phase_state, (Hbusy w eq_refl). exact Hi.
    + unfold enabled. rewrite Hp. apply andb_false_r.
  - split.
    + simpl. unfold execute_resume. repeat case_match; simpl; try exact Hnil.
      intros e He [Hm|Hm]; apply list_elem_of_singleton in He; subst e; discriminate Hm.
    + pose proof (step_in_flight st (Settle k o)) as [Hfl|Hfl];
        unfold pending; rewrite Hfl; [lia | apply filter_delete_length].
  - split; [exact Hnil|]. unfold pending.
    rewrite (step_in_flight st (SetOn n' b)). lia.
  - split; [exact Hnil | reflexivity].
  - split; [exact Hnil|]. unfold pending.
    rewrite (step_in_flight st (Pause n')). lia.
  - split; [exact Hnil | reflexivity].
Qed.

Lemma run_modes_map ins : forall st, modes_map (run st ins).1 = modes_map st.
Proof.
  induction ins as [|a ins IH]; intros st; [reflexivity|].
  rewrite run_cons. simpl. rewrite IH. apply step_modes_map.
Qed.

Lemma run_while_paused n i ins : forall st,
  registry_wf st -> modes_map st !! n = Some i -> paused_at i st ->
  Forall (fun inp => forall w, inp = Tick w -> ctl_idle w = false) ins ->
  paused_at i (run st ins).1 /\
  (forall e, e ∈ (run st ins).2 -> ~ mentions n e) /\
  pending i (run st ins).1 <= pending i st.
Proof.
  induction ins as [|inp ins IH]; intros st Hwf Hn Hp Hins.
  { split; [exact Hp|]. split; [intros e He; inversion He | reflexivity]. }
  apply Forall_cons in Hins as [Hinp Hins].
  destruct (step_while_paused st inp n i Hwf Hn Hp Hinp) as (Hlog1 & Hp1).
  destruct (IH (step st inp).1) as (Hoff2 & Hlog2 & Hp2);
    auto using step_wf, step_keeps_paused.
  { rewrite step_modes_map. exact Hn. }
  rewrite run_cons. simpl. split; [exact Hoff2|]. split; [|lia].
  intros e He. apply elem_of_app in He as [He|He]; auto.
Qed.

(** X11: [pause] takes a mode out of the loop until the agent is idle
    again.  For a registered name the call succeeds, and from then on,
    through ticks of an agent that is not idle, settling actions and any
    other calls, the update of that mode is not called, it asks the world
    for nothing, no action of it becomes pending, and it still reads as
    paused, even if it is switched on again meanwhile. *)
Theorem paused_mode_is_skipped (st : state) (n : string) :
  reachable st -> n ∈ mode_names ->
  exists st1 i,
    ModeController.pause st n = Returned st1 /\
    modes_map st !! n = Some i /\
    forall ins,
      Forall (fun inp => forall w, inp = Tick w -> ctl_idle w = false) ins ->
      (EvUpdate n ∉ (run st1 ins).2) /\
      (EvQuery n ∉ (run st1 ins).2) /\
      pending i (run st1 ins).1 <= pending i st1 /\
      paused_at i (run st1 ins).1.
Proof.
  intros Hr Hin. pose proof (reachable_wf st Hr) as Hwf.
  apply (modes_map_registered st n Hwf) in Hin as [i Hn].
  destruct (wf_lookup_registered st n i Hwf Hn) as [m Hi].
  set (st1 := ModeController.with_modes (<[i := set_paused true m]> (modes_list st)) st).
  assert (Hset : ModeController.pause st n = Returned st1).
  { unfold ModeController.pause, ModeController.get. rewrite Hn. simpl.
    rewrite Hi. reflexivity. }
  assert (Hst1 : st1 = (step st (Pause n)).1) by (simpl; rewrite Hset; reflexivity).
  assert (Hwf1 : registry_wf st1) by (rewrite Hst1; apply step_wf, Hwf).
  assert (Hn1 : modes_map st1 !! n = Some i) by exact Hn.
  assert (Hp : paused_at i st1).
  { exists (set_paused true m). split; [|reflexivity]. simpl.
    apply list_lookup_insert_eq. eapply lookup_lt_Some, Hi. }
  exists st1, i. split; [exact Hset|]. split; [exact Hn|].
  intros ins Hins.
  destruct (run_while_paused n i ins st1 Hwf1 Hn1 Hp Hins) as (Hp' & Hlog & Hpend).
  split; [intros He; exact (Hlog _ He (or_introl eq_refl))|].
  split; [intros He; exact (Hlog _ He (or_intror eq_refl))|].
  split; [exact Hpend | exact Hp'].
Qed.

Lemma paused_mode_is_skipped_witness :
  exists st1 i,
    ModeController.pause ModeController.constructor "self_defense" = Returned st1 /\
    modes_map ModeController.constructor !! "self_defense" = Some i /\
    (EvUpdate "self_defense" ∉
       (run st1 [Tick (Obs false (Some zombie) true false None false false None false
                           0 0 false false [] (0, 0, 0)%Q false None false
                           0 0 0 0 0 0 0 0);
                 SetOn "self_defense" true; Tick busy]).2).
Proof.
  destruct (paused_mode_is_skipped ModeController.constructor "self_defense")
    as (st1 & i & Hset & Hn & Hrun).
  - exists []. reflexivity.
  - unfold mode_names. rewrite !elem_of_cons. auto.
  - exists st1, i. split; [exact Hset|]. split; [exact Hn|].
    apply Hrun. repeat constructor; intros w Hw; try discriminate Hw;
      injection Hw as <-; reflexivity.
Defined.

(** ** torch_placing *)

Lemma append_cons c a b : String c a +:+ b = String c (a +:+ b).
Proof. reflexivity. Qed.

Lemma append_nil b : "" +:+ b = b.
Proof. reflexivity. Qed.

Lemma prefix_spec a : forall b,
  String.prefix a b = true <-> exists post, b = a +:+ post.
Proof.
  induction a as [|c a IH]; intros [|c' b]; simpl.
  - split; [intros _; exists ""; reflexivity | reflexivity].
  - split; [intros _; exists (String c' b); reflexivity | reflexivity].
  - split; [discriminate|]. intros [post H]. discriminate H.
  - destruct (Ascii.ascii_dec c c') as [->|Hne].
    + rewrite IH. split; intros [post H]; exists post;
        rewrite append_cons in *; congruence.
    + split; [discriminate|]. intros [post H].
      rewrite append_cons in H. congruence.
Qed.

(** [includes] is the substring test of [String.prototype.includes]. *)
Lemma includes_spec needle : forall haystack,
  includes needle haystack = true <->
  exists pre post, haystack = pre +:+ needle +:+ post.
Proof.
  assert (Hunfold : forall h, includes needle h =
                              if String.prefix needle h then true
                              else match h with
                                   | EmptyString => false
                                   | String _ rest => includes needle rest
                                   end) by (intros [|c h]; reflexivity).
  induction haystack as [|c h IH]; rewrite Hunfold.
  - destruct (String.prefix needle "") eqn:Hp.
    + apply prefix_spec in Hp as [post Hp]. split; [|reflexivity].
      intros _. exists "", post. exact Hp.
    + split; [discriminate|]. intros ([|c pre] & post & H).
      * rewrite append_nil in H.
        assert (String.prefix needle "" = true) by (apply prefix_spec; eauto).
        congruence.
      * rewrite append_cons in H. discriminate H.
  - destruct (String.prefix needle (String c h)) eqn:Hp.
    + apply prefix_spec in Hp as [post Hp]. split; [|reflexivity].
      intros _. exists "", post. exact Hp.
    + rewrite IH. split.
      * intros (pre & post & ->). exists (String c pre), post. reflexivity.
      * intros ([|c' pre] & post & H).
        -- rewrite append_nil in H.
           assert (String.prefix needle (String c h) = true)
             by (apply prefix_spec; eauto).
           congruence.
        -- rewrite append_cons in H. injection H as _ ->. eauto.
Qed.

Lemma filter_head {A} (f : A -> bool) (l : list A) x rest :
  List.filter f l = x :: rest ->
  exists before after,
    l = before ++ x :: after /\ f x = true /\ Forall (fun a => f a = false) before.
Proof.
  induction l as [|a l IH]; simpl; [discriminate|].
  destruct (f a) eqn:Ha.
  - intros H. injection H as -> _. exists [], l. auto.
  - intros H. destruct (IH H) as (before & after & -> & Hx & Hb).
    exists (a :: before), after. auto.
Qed.

Lemma filter_nil_all {A} (f : A -> bool) (l : list A) :
  List.filter f l = [] -> forall a, a ∈ l -> f a = false.
Proof.
  induction l as [|a l IH]; simpl; intros H b Hb; [inversion Hb|].
  destruct (f a) eqn:Ha; [discriminate H|].
  apply elem_of_cons in Hb as [->|Hb]; auto.
Qed.

(** X12: what torch_placing places is a torch from the inventory.  When
    its update hands an action to [execute], the mode was not active, the
    agent is idle and no torch is near; the block is the first inventory
    item whose name contains "torch", placed at the agent's position.
    Conversely, under those conditions any such item in the inventory
    makes the update start the placement. *)
Theorem torch_placing_places_a_torch (w : obs) (m : mode) :
  update m = torch_placing_update ->
  (forall d,
     u_dispatch (run_update w m) = Some d ->
     active m = false /\ tp_idle w = true /\ tp_near_torch w = false /\
     exists block before after pre post,
       d = (PlaceBlock block (tp_position w), (-1)%Z) /\
       tp_inventory w = before ++ block :: after /\
       block = pre +:+ "torch" +:+ post /\
       Forall (fun item => includes "torch" item = false) before) /\
  (active m = false -> tp_idle w = true -> tp_near_torch w = false ->
   forall item,
     item ∈ tp_inventory w -> includes "torch" item = true ->
     is_Some (u_dispatch (run_update w m))).
Proof.
  intros Hu. unfold run_update. rewrite Hu. unfold run_torch_placing, execute, finish.
  split.
  - intros d Hd.
    destruct (active m); [discriminate Hd|].
    destruct (tp_idle w); [|discriminate Hd].
    destruct (tp_near_torch w); [discriminate Hd|].
    destruct (List.filter (includes "torch") (tp_inventory w)) as [|torch rest] eqn:Hf;
      [discriminate Hd|].
    simpl in Hd. injection Hd as <-.
    destruct (filter_head _ _ _ _ Hf) as (before & after & Hinv & Hinc & Hbefore).
    apply includes_spec in Hinc as (pre & post & Hsub).
    repeat split. exists torch, before, after, pre, post. auto.
  - intros -> -> -> item Hin Hinc.
    destruct (List.filter (includes "torch") (tp_inventory w)) as [|torch rest] eqn:Hf.
    + rewrite (filter_nil_all _ _ Hf item Hin) in Hinc. discriminate Hinc.
    + simpl. eauto.
Qed.

Lemma torch_placing_places_a_torch_witness :
  let w := Obs true None false true None false true None false 0 0
               true false ["cobblestone"; "soul_torch"; "torch"] (1, 64, 1)%Q
               true None false 0 0 0 0 0 0 0 0 in
  exists block before after pre post,
    (PlaceBlock "soul_torch" (1, 64, 1)%Q, (-1)%Z)
    = (PlaceBlock block (tp_position w), (-1)%Z) /\
    tp_inventory w = before ++ block :: after /\
    block = pre +:+ "torch" +:+ post /\
    Forall (fun item => includes "torch" item = false) before.
Proof.
  intros w.
  exact (proj2 (proj2 (proj2
    (proj1 (torch_placing_places_a_torch w
              (Mode "torch_placing" "" true false None torch_placing_update NoState)
              eq_refl)
           _ eq_refl)))).
Defined.

(** ** item_collecting beyond the dwell *)

Lemma item_update_same_prev w m wait x noticed :
  update m = item_collecting_update ->
  tstate m = ItemState wait (Some x) noticed ->
  (forall y, ic_item w = Some y -> same_entity y x = true) ->
  u_dispatch (run_update w m) = None /\
  update (u_mode (run_update w m)) = item_collecting_update /\
  exists noticed', tstate (u_mode (run_update w m)) = ItemState wait (Some x) noticed'.
Proof.
  intros Hu Ht Hsame. unfold run_update. rewrite Hu.
  unfold run_item_collecting, finish. rewrite Ht.
  assert (Hel : eligible_item w (Some x) = None).
  { unfold eligible_item. destruct (ic_item w) as [y|] eqn:Hy; [|reflexivity].
    simpl. rewrite (Hsame y eq_refl). reflexivity. }
  rewrite Hel.
  destruct (active m); [simpl; eauto|].
  destruct (ic_idle w); simpl; eauto.
Qed.

(** X13: the item picked up last is never the reason for the next pickup.
    While the nearest item, whenever there is one, is the remembered
    prev_item, no sequence of updates of item_collecting starts a pickup,
    however long the item lies there, and prev_item stays remembered. *)
Theorem picked_item_is_not_picked_again (ws : list obs) : forall m wait x noticed,
  update m = item_collecting_update ->
  tstate m = ItemState wait (Some x) noticed ->
  Forall (fun w => forall y, ic_item w = Some y -> same_entity y x = true) ws ->
  (updates_in_a_row ws m).2 = [] /\
  exists noticed',
    tstate (updates_in_a_row ws m).1 = ItemState wait (Some x) noticed'.
Proof.
  induction ws as [|w ws IH]; intros m wait x noticed Hu Ht Hws; [simpl; eauto|].
  apply Forall_cons in Hws as [Hw Hws].
  destruct (item_update_same_prev w m wait x noticed Hu Ht Hw)
    as (Hd & Hu' & noticed1 & Ht').
  destruct (IH _ wait x noticed1 Hu' Ht' Hws) as [Hds Hts].
  simpl. destruct (updates_in_a_row ws (u_mode (run_update w m))) as [m' ds].
  simpl in *. rewrite Hd, Hds. split; [reflexivity | exact Hts].
Qed.

Lemma picked_item_is_not_picked_again_witness :
  (updates_in_a_row [observe None None (Some apple) 10000;
                     observe None None (Some apple) 20000;
                     observe None None (Some apple) 30000]
                    (Mode "item_collecting" "" true false None
                          item_collecting_update (ItemState 2 (Some apple) (-1)))).2
  = [].
Proof.
  refine (proj1 (picked_item_is_not_picked_again
                   [observe None None (Some apple) 10000;
                    observe None None (Some apple) 20000;
                    observe None None (Some apple) 30000]
                   (Mode "item_collecting" "" true false None
                         item_collecting_update (ItemState 2 (Some apple) (-1)))
                   2%Z apple (-1)%Z eq_refl eq_refl _)).
  repeat constructor; intros y Hy; injection Hy as <-; reflexivity.
Defined.



(** ** idle_staring *)

(** X15: idle_staring only ever looks at the nearest entity, and only
    when the agent is idle, the entity is closer than 10 and it is not an
    enderman; the point looked at is the entity's full height, or half of
    it for a baby that is not a player. *)
Theorem idle_staring_looks_at_what_is_near (w : obs) (m : mode) (e : entity) (h : Q) :
  EvLookAt e h ∈ u_log (run_idle_staring w m) ->
  st_idle w = true /\ st_entity w = Some e /\ st_dist_lt_10 w = true /\
  ent_name e <> "enderman" /\
  h = if negb (String.eqb (ent_type e) "player") && ent_metadata16 e
      then (ent_height e / 2)%Q else ent_height e.
Proof.
  unfold run_idle_staring, finish. intros Hin.
  destruct (tstate m) as [| |staring last next]; try (inversion Hin; fail).
  destruct (st_idle w); [|inversion Hin].
  match type of Hin with
  | context [match ?x with pair _ _ => _ end] =>
      destruct x as [[staring1 last1] next1] eqn:E1
  end.
  match type of Hin with
  | context [match ?x with pair _ _ => _ end] =>
      destruct x as [[staring3 next3] look] eqn:E2
  end.
  simpl in Hin. rewrite elem_of_cons, elem_of_app in Hin.
  destruct Hin as [Hin|[Hin|Hin]]; [discriminate Hin| |].
  - clear E1 E2. destruct (st_entity w) as [e'|]; [|inversion Hin].
    destruct (st_dist_lt_10 w); simpl in Hin; [|inversion Hin].
    destruct (String.eqb_spec (ent_name e') "enderman") as [Hn|Hn];
      simpl in Hin; [inversion Hin|].
    destruct staring1; [|inversion Hin].
    apply list_elem_of_singleton in Hin. injection Hin as -> ->. auto.
  - clear E1. destruct (Qltb next1 (inject_Z (st_now_check w))).
    + injection E2 as _ _ <-. destruct (Qltb (st_rand_staring w) (3 # 10)).
      * inversion Hin.
      * apply list_elem_of_singleton in Hin. discriminate Hin.
    + injection E2 as _ _ <-. inversion Hin.
Qed.

Lemma idle_staring_looks_at_what_is_near_witness :
  let baby_cow := Entity 7 "cow" "mob" true (7 # 5) in
  let w := Obs true None false true None false true None false 0 0 true true []
               (0, 0, 0)%Q true (Some baby_cow) true 0 0 0 0 0 0 0 0 in
  st_idle w = true /\ st_entity w = Some baby_cow /\ st_dist_lt_10 w = true /\
  ent_name baby_cow <> "enderman" /\
  ((7 # 5) / 2)%Q
  = if negb (String.eqb (ent_type baby_cow) "player") && ent_metadata16 baby_cow
    then (ent_height baby_cow / 2)%Q else ent_height baby_cow.
Proof.
  intros baby_cow w.
  apply (idle_staring_looks_at_what_is_near w
           (Mode "idle_staring" "" true false None idle_staring_update
                 (StareState false None 0))).
  vm_compute. right. left.
Defined.

(** ** No flag is left raised without an action *)

Lemma run_update_raises w m :
  update m <> idle_staring_update ->
  active (u_mode (run_update w m)) = true ->
  active m = true \/ exists d, u_dispatch (run_update w m) = Some d.
Proof.
  intros Hu. unfold run_update.
  destruct (update m); try contradiction;
    unfold run_self_defense, run_hunting, run_item_collecting, run_torch_placing,
      execute, finish;
    repeat case_match; simpl; eauto; intros; congruence.
Qed.

Lemma evaluate_raised_dispatch proto w ms : forall i j m m',
  ms !! j = Some m ->
  (ModeController.evaluate proto w i ms).1.1 !! j = Some m' ->
  update m <> idle_staring_update ->
  active m' = true ->
  active m = true \/
  exists f t, Dispatch (i + j) f t ∈ (ModeController.evaluate proto w i ms).2.
Proof.
  induction ms as [|m0 ms IH]; intros i j m m' Hj Hj' Hu Ha; [discriminate Hj|].
  simpl in Hj' |- *. specialize (IH (S i)).
  destruct (ModeController.evaluate proto w (S i) ms) as [[ms' log'] ds'].
  simpl in IH.
  assert (Hhead : j = 0 -> m' = u_mode (run_update w m0) ->
            active m = true \/
            exists f t, Dispatch (i + j) f t ∈
              match u_dispatch (run_update w m0) with
              | Some (func, timeout) => [Dispatch i func timeout]
              | None => []
              end).
  { intros -> ->. simpl in Hj. injection Hj as ->.
    destruct (run_update_raises w m Hu Ha) as [?|[[f t] Hd]]; [auto|].
    right. exists f, t. rewrite Hd, Nat.add_0_r. apply list_elem_of_here. }
  assert (Htail : forall j0, j = S j0 -> ms' !! j0 = Some m' ->
            active m = true \/ exists f t, Dispatch (i + j) f t ∈ ds').
  { intros j0 -> Hm'. simpl in Hj.
    destruct (IH j0 m m' Hj Hm' Hu Ha) as [?|(f & t & Hin)]; [auto|].
    right. exists f, t. replace (i + S j0) with (S i + j0) by lia. exact Hin. }
  destruct (on m0 && negb (is_paused proto m0));
    [destruct (active (u_mode (run_update w m0)))|]; simpl in Hj' |- *.
  - destruct j as [|j0]; simpl in Hj'.
    + injection Hj' as <-. apply Hhead; reflexivity.
    + simpl in Hj. left. congruence.
  - destruct j as [|j0]; simpl in Hj'.
    + injection Hj' as <-.
      destruct (Hhead eq_refl eq_refl) as [?|(f & t & Hin)]; [auto|].
      right. exists f, t. apply elem_of_app. auto.
    + destruct (Htail j0 eq_refl Hj') as [?|(f & t & Hin)]; [auto|].
      right. exists f, t. apply elem_of_app. auto.
  - destruct j as [|j0]; simpl in Hj'.
    + simpl in Hj. left. congruence.
    + apply (Htail j0 eq_refl Hj').
Qed.

Lemma pending_elem i st d :
  d ∈ in_flight st -> d_mode d = i -> 1 <= pending i st.
Proof.
  unfold pending. intros Hin Hd.
  induction (in_flight st) as [|d0 l IH]; [inversion Hin|]. simpl.
  apply elem_of_cons in Hin as [<-|Hin].
  - rewrite Hd, Nat.eqb_refl. simpl. lia.
  - specialize (IH Hin). destruct (Nat.eqb (d_mode d0) i); simpl; lia.
Qed.

Lemma filter_delete_other {A} (f : A -> bool) (l : list A) : forall k d,
  l !! k = Some d -> f d = false -> List.filter f (delete k l) = List.filter f l.
Proof.
  induction l as [|a l IH]; intros [|k] d Hk Hf; try discriminate Hk; simpl in *.
  - injection Hk as ->. rewrite Hf. reflexivity.
  - rewrite (IH k d Hk Hf). reflexivity.
Qed.

Lemma step_flags_backed st inp : flags_backed st -> flags_backed (step st inp).1.
Proof.
  intros Hinv i m' Hi' Hu' Ha'.
  destruct (Forall2_lookup_r _ _ _ _ _ (step_pointwise st inp) Hi')
    as (m & Hi & Hch).
  assert (Hkept : active m = active m' -> update m = update m' ->
                  in_flight (step st inp).1 = in_flight st -> 1 <= pending i (step st inp).1).
  { intros Ha Hu Hfl. unfold pending. rewrite Hfl.
    apply (Hinv i m Hi); congruence. }
  destruct inp as [w|k o|n b|n|n|n].
  - (* a tick *)
    clear Hkept Hch. simpl in Hi' |- *.
    destruct (update_in_flight w st) as (ds & Hfl & _).
    rewrite update_unfold in Hi', Hfl. cbn [fst modes_list in_flight] in Hi', Hfl.
    rewrite update_unfold. unfold pending. cbn [fst in_flight].
    set (st1 := (ModeController.unpause_phase w st).1) in *.
    assert (Hst1 : modes_list st1 !! i = Some (unpaused_by w m) /\
                   in_flight st1 = in_flight st).
    { subst st1. rewrite unpause_phase_state. unfold unpaused_by.
      destruct (ctl_idle w); simpl; [|auto]. rewrite list_lookup_fmap, Hi. auto. }
    destruct Hst1 as [Hi1 Hfl1].
    assert (Hu1 : update (unpaused_by w m) <> idle_staring_update).
    { pose proof (evaluate_pointwise (object_prototype st1) w 0 (modes_list st1)) as Hp.
      destruct (Forall2_lookup_l _ _ _ _ _ Hp Hi1) as (m2 & Hm2 & Hrel).
      assert (m2 = m') as -> by congruence.
      destruct Hrel as [->|[_ ->]]; [exact Hu'|].
      pose proof (run_update_literal w (unpaused_by w m)) as Hl.
      unfold literal in Hl. injection Hl as _ _ Hupd _. congruence. }
    destruct (evaluate_raised_dispatch (object_prototype st1) w (modes_list st1) 0 i
                (unpaused_by w m) m' Hi1 Hi' Hu1 Ha') as [Ha|(f & t & Hin)].
    + rewrite Hfl1, List.filter_app, length_app.
      assert (1 <= pending i st); [|unfold pending in *; lia].
      apply (Hinv i m Hi).
      * unfold unpaused_by in Hu1. destruct (ctl_idle w); exact Hu1.
      * unfold unpaused_by in Ha. destruct (ctl_idle w); exact Ha.
    + apply (pending_elem i (State [] ∅ no_props ∅ _) (Dispatch i f t));
        [|reflexivity].
      simpl. apply elem_of_app. right. exact Hin.
  - (* an action settles *)
    clear Hkept Hch. simpl in Hi' |- *. unfold execute_resume in *.
    destruct (in_flight st !! k) as [d|] eqn:Hk; [|apply (Hinv i m'); assumption].
    destruct (modes_list st !! d_mode d) as [md|] eqn:Hd;
      [|apply (Hinv i m'); assumption].
    simpl in Hi' |- *. destruct (decide (d_mode d = i)) as [<-|Hne].
    + rewrite list_lookup_insert_eq in Hi' by (eapply lookup_lt_Some; eauto).
      injection Hi' as <-. discriminate Ha'.
    + rewrite list_lookup_insert_ne in Hi' by exact Hne.
      unfold pending. simpl.
      rewrite (filter_delete_other _ _ k d Hk);
        [apply (Hinv i m'); assumption|].
      apply Nat.eqb_neq. exact Hne.
  - inversion Hch; subst; apply Hkept; auto;
      apply (step_in_flight st (SetOn n b)).
  - apply (Hinv i m'); assumption.
  - inversion Hch; subst; apply Hkept; auto;
      apply (step_in_flight st (Pause n)).
  - apply (Hinv i m'); assumption.
Qed.

(** X16: no flag is left raised without an action behind it.  In every
    reachable state, each mode other than idle_staring whose active flag
    is raised has at least one action pending in [agent.coder.execute],
    so the flag is lowered once that action settles. *)
Theorem raised_flag_has_pending_action (st : state) :
  reachable st -> flags_backed st.
Proof.
  intros [ins <-].
  assert (H : forall st0, flags_backed st0 -> flags_backed (run st0 ins).1).
  { induction ins as [|inp ins IH]; intros st0 H0; [exact H0|].
    rewrite run_cons. simpl. apply IH, step_flags_backed, H0. }
  apply H. intros i m Hi _ Ha.
  destruct i as [|[|[|[|[|i]]]]]; simpl in Hi; simplify_eq/=.
Qed.

Lemma raised_flag_has_pending_action_witness :
  1 <= pending 1 (run ModeController.constructor
                      [Tick (observe None (Some cow) None 0); Tick busy;
                       Pause "hunting"]).1.
Proof.
  refine (raised_flag_has_pending_action
            (run ModeController.constructor
                 [Tick (observe None (Some cow) None 0); Tick busy; Pause "hunting"]).1
            (ex_intro _ [Tick (observe None (Some cow) None 0); Tick busy;
                         Pause "hunting"] eq_refl) 1
            (Mode "hunting" "Automatically hunt nearby animals when idle."
                  true true (Some true) hunting_update NoState)
            eq_refl _ eq_refl).
  discriminate.
Defined.

(** ** Writes through a name *)

Lemma write_ext wm wm' wp wp' r st :
  (forall m, wm m = wm' m) -> (forall p, wp p = wp' p) ->
  ModeController.write wm wp r st = ModeController.write wm' wp' r st.
Proof.
  intros Hm Hp. destruct r as [i| |f|v]; simpl; rewrite ?Hp; try reflexivity.
  destruct (modes_list st !! i); [rewrite Hm|]; reflexivity.
Qed.

Lemma write_write wm1 wp1 wm2 wp2 r st :
  ModeController.write wm2 wp2 r (ModeController.write wm1 wp1 r st)
  = ModeController.write (fun m => wm2 (wm1 m)) (fun p => wp2 (wp1 p)) r st.
Proof.
  destruct r as [i| |f|v]; simpl; try reflexivity.
  - destruct (modes_list st !! i) as [m|] eqn:Hi; simpl; [|rewrite Hi; reflexivity].
    rewrite list_lookup_insert_eq by (eapply lookup_lt_Some; eauto).
    unfold ModeController.with_modes. simpl.
    rewrite list_insert_insert_eq. reflexivity.
  - unfold ModeController.function_props. simpl.
    rewrite lookup_insert_eq, insert_insert_eq. reflexivity.
Qed.

Lemma write_commute wm1 wp1 wm2 wp2 r1 r2 st :
  (forall m, wm1 (wm2 m) = wm2 (wm1 m)) ->
  (forall p, wp1 (wp2 p) = wp2 (wp1 p)) ->
  ModeController.write wm1 wp1 r1 (ModeController.write wm2 wp2 r2 st)
  = ModeController.write wm2 wp2 r2 (ModeController.write wm1 wp1 r1 st).
Proof.
  intros Hm Hp.
  assert (Hsame : forall r,
            ModeController.write wm1 wp1 r (ModeController.write wm2 wp2 r st)
            = ModeController.write wm2 wp2 r (ModeController.write wm1 wp1 r st)).
  { intros r. rewrite !write_write. apply write_ext; auto. }
  destruct r1 as [i| |f|v], r2 as [j| |g|v']; try apply Hsame; try reflexivity;
    try (simpl; destruct (modes_list st !! i); reflexivity);
    try (simpl; destruct (modes_list st !! j); reflexivity).
  - destruct (decide (i = j)) as [->|Hne]; [apply Hsame|]. simpl.
    destruct (modes_list st !! i) as [mi|] eqn:Ei;
      destruct (modes_list st !! j) as [mj|] eqn:Ej; simpl;
      rewrite ?list_lookup_insert_ne by auto; rewrite ?Ei, ?Ej; try reflexivity.
    unfold ModeController.with_modes. simpl.
    rewrite list_insert_insert_ne by auto. reflexivity.
  - destruct (decide (f = g)) as [->|Hne]; [apply Hsame|]. simpl.
    unfold ModeController.function_props. simpl.
    rewrite !lookup_insert_ne by auto.
    rewrite insert_insert_ne by auto. reflexivity.
Qed.

(** X17: writes through names compose as writes to independent fields.
    A second [setOn] on the same name overrides the first, [pause] is
    idempotent, and a [setOn] and a [pause], on the same name or on two
    different ones, can be made in either order with the same result. *)
Theorem name_writes_compose (st : state) (n n' : string) (b b' : bool) :
  (forall st1,
     ModeController.setOn st n b = Returned st1 ->
     ModeController.setOn st1 n b' = ModeController.setOn st n b') /\
  (forall st1,
     ModeController.pause st n = Returned st1 ->
     ModeController.pause st1 n = Returned st1) /\
  (forall st1 st2,
     ModeController.setOn st n b = Returned st1 ->
     ModeController.pause st n' = Returned st2 ->
     exists st3,
       ModeController.pause st1 n' = Returned st3 /\
       ModeController.setOn st2 n b = Returned st3).
Proof.
  split; [|split].
  - intros st1 H. apply setOn_returned in H as (r & Hget & Hr & ->).
    rewrite (setOn_object _ n b' r (get_object st _ n r Hget Hr (write_modes_map _ _ _ _)) Hr),
      (setOn_object st n b' r Hget Hr), write_write.
    reflexivity.
  - intros st1 H. apply pause_returned in H as (r & Hget & Hr & ->).
    rewrite (pause_object _ n r (get_object st _ n r Hget Hr (write_modes_map _ _ _ _)) Hr),
      write_write.
    reflexivity.
  - intros st1 st2 H1 H2.
    apply setOn_returned in H1 as (r & Hget & Hr & ->).
    apply pause_returned in H2 as (r' & Hget' & Hr' & ->).
    rewrite (pause_object _ n' r' (get_object st _ n' r' Hget' Hr' (write_modes_map _ _ _ _)) Hr'),
      (setOn_object _ n b r (get_object st _ n r Hget Hr (write_modes_map _ _ _ _)) Hr).
    eexists. split; [reflexivity|]. f_equal. apply write_commute; reflexivity.
Qed.

Lemma name_writes_compose_witness :
  exists st3,
    ModeController.pause
      (ModeController.write (set_on false) (fun p => Props (Some false) (p_paused p))
                            (RMode 1) ModeController.constructor)
      "self_defense" = Returned st3 /\
    ModeController.setOn
      (ModeController.write (set_paused true) (fun p => Props (p_on p) (Some true))
                            (RMode 0) ModeController.constructor)
      "hunting" false = Returned st3.
Proof.
  exact (proj2 (proj2 (name_writes_compose ModeController.constructor
                         "hunting" "self_defense" false true))
               _ _ eq_refl eq_refl).
Defined.

(** ** A tick in which nothing takes the floor *)

(** X18: the loop itself starves no mode.  If no enabled mode before the
    last one is active when its update returns, the tick calls the update
    of every mode that is on and not paused, once each and in registry
    order, and leaves every other mode untouched. *)
Theorem quiet_tick_updates_every_enabled_mode (w : obs) (st : state) :
  let st1 := (ModeController.unpause_phase w st).1 in
  let proto := object_prototype st1 in
  (forall j m,
     S j < length (modes_list st1) -> modes_list st1 !! j = Some m ->
     enabled proto m = true -> active (u_mode (run_update w m)) = false) ->
  updates_of (ModeController.update w st).2
  = name <$> List.filter (enabled proto) (modes_list st1) /\
  modes_list (ModeController.update w st).1
  = (fun m => if enabled proto m then u_mode (run_update w m) else m)
      <$> modes_list st1.
Proof.
  intros st1 proto Hquiet.
  destruct (evaluate_examined proto w (modes_list st1) 0)
    as (k & Hk & Hdrop & Htake & Hlog & _ & Hearly).
  assert (Hall : k = length (modes_list st1)).
  { destruct (decide (k < length (modes_list st1))) as [Hlt|]; [|lia].
    destruct (Hearly Hlt) as (j & m & <- & Hj & En & Ha).
    rewrite (Hquiet j m Hlt Hj En) in Ha. discriminate Ha. }
  set (r := ModeController.evaluate proto w 0 (modes_list st1)) in *.
  rewrite update_unfold.
  change (updates_of ((ModeController.unpause_phase w st).2 ++ r.1.2)
          = name <$> List.filter (enabled proto) (modes_list st1) /\
          r.1.1 = (fun m => if enabled proto m then u_mode (run_update w m) else m)
                    <$> modes_list st1).
  rewrite updates_of_app, (proj1 (unpause_phase_log w st)). simpl.
  rewrite Hall, firstn_all in Hlog. split; [exact Hlog|].
  rewrite <- (take_drop k r.1.1).
  rewrite Hdrop, Htake, Hall, drop_all, firstn_all, app_nil_r. reflexivity.
Qed.

Lemma quiet_tick_updates_every_enabled_mode_witness :
  updates_of (ModeController.update quiet ModeController.constructor).2
  = name <$> List.filter (enabled (object_prototype
                                     (ModeController.unpause_phase quiet
                                        ModeController.constructor).1))
                         (modes_list (ModeController.unpause_phase quiet
                                        ModeController.constructor).1).
Proof.
  refine (proj1 (quiet_tick_updates_every_enabled_mode quiet
                   ModeController.constructor _)).
  intros [|[|[|[|j]]]] m Hlt Hj _; simpl in Hj; try (simpl in Hlt; lia);
    injection Hj as <-; reflexivity.
Defined.
